(** * intensity_normalization.utilities.mask

    A shallow embedding of [fcm_class_mask] and [gmm_class_mask]
    (src/intensity_normalization/utilities/mask.py) together with the
    numpy and Python builtins they rely on, and the properties of the
    tissue-class masks they compute.

    Conventions of the embedding:
    - voxel intensities, memberships and probabilities are floats in the
      source; they are rationals ([Q]) here, so there is neither rounding
      nor NaN;
    - an N-dimensional array is its shape together with its elements in
      row-major order;
    - the two fitting routines ([skfuzzy.cmeans] and
      [sklearn.mixture.GaussianMixture]) are external: they are parameters
      of the development, and every call to them is recorded in a trace;
    - a Python exception is an explicit outcome;
    - where the brain mask has fewer axes than the image, numpy selects
      whole sub-arrays and the source goes on with assignments between
      arrays of several axes; the embedding follows the source up to the
      fitted model and stops there with the outcome [Unmodelled]. *)

From Stdlib Require Import String.
From Stdlib Require Import List Arith Bool ZArith QArith Lia Lqa.
From Stdlib Require Import Permutation Sorted.
Import ListNotations.

Local Open Scope nat_scope.
Local Open Scope list_scope.

(** ** Outcomes, traces and the monad threading them *)

(** The exceptions numpy and the builtins raise on the paths of this
    module; any other exception class is identified by its name. *)
Inductive exn : Type :=
| ValueError
| IndexError
| TypeError
| OtherError (name : string).

(** Calls to the external fitting routines, with their arguments. *)
Inductive call : Type :=
| cmeans_call (data : list (list Q)) (c : nat) (m : Q) (error : Q) (maxiter : nat)
| GaussianMixture_fit_call (n_components : nat) (X : list Q).

(** [Unmodelled] marks the paths that leave the fragment of numpy covered
    here (see [one_dim]); nothing is claimed about them. *)
Inductive result (A : Type) : Type :=
| Ok (a : A)
| Raise (e : exn)
| Unmodelled.
Arguments Ok {A} a.
Arguments Raise {A} e.
Arguments Unmodelled {A}.

Definition M (A : Type) : Type := (list call * result A)%type.

Definition ret {A} (a : A) : M A := ([], Ok a).
Definition raise {A} (e : exn) : M A := ([], Raise e).
Definition unmodelled {A} : M A := ([], Unmodelled).

Definition bind {A B} (m : M A) (f : A -> M B) : M B :=
  match m with
  | (t, Ok a) => let (t', r) := f a in (t ++ t', r)
  | (t, Raise e) => (t, Raise e)
  | (t, Unmodelled) => (t, Unmodelled)
  end.

Notation "x <- c1 ;; c2" := (bind c1 (fun x => c2))
  (at level 61, c1 at next level, right associativity).
Notation "' pat <- c1 ;; c2" := (bind c1 (fun x => match x with pat => c2 end))
  (at level 61, pat pattern, c1 at next level, right associativity).

Definition trace {A} (m : M A) : list call := fst m.
Definition outcome {A} (m : M A) : result A := snd m.

Fixpoint mapM {A B} (f : A -> M B) (l : list A) : M (list B) :=
  match l with
  | [] => ret []
  | x :: l' => y <- f x ;; ys <- mapM f l' ;; ret (y :: ys)
  end.

Fixpoint foldM {A B} (f : A -> B -> M A) (l : list B) (a : A) : M A :=
  match l with
  | [] => ret a
  | x :: l' => a' <- f a x ;; foldM f l' a'
  end.

(** ** Python builtins *)

Definition Qlt_bool (x y : Q) : bool := negb (Qle_bool y x).

(** [l[i]] *)
Definition getitem {A} (l : list A) (i : nat) : M A :=
  match nth_error l i with
  | Some x => ret x
  | None => raise IndexError
  end.

Definition enumerate {A} (l : list A) : list (nat * A) :=
  combine (seq 0 (length l)) l.

(** [sorted(l, key=key)]: a stable sort that only asks whether one key is
    smaller than another; an element moves in front of those already
    placed only past the ones with a strictly larger key. *)
Fixpoint insert_by {A} (key : A -> Q) (x : A) (l : list A) : list A :=
  match l with
  | [] => [x]
  | y :: l' => if Qlt_bool (key y) (key x) then y :: insert_by key x l'
               else x :: y :: l'
  end.

Definition sorted {A} (l : list A) (key : A -> Q) : list A :=
  fold_right (insert_by key) [] l.

(** [max(l, key=key)]: the first element whose key no later element
    exceeds; [ValueError] on an empty sequence. *)
Fixpoint max_from {A} (key : A -> Q) (best : A) (l : list A) : A :=
  match l with
  | [] => best
  | y :: l' => max_from key (if Qlt_bool (key best) (key y) then y else best) l'
  end.

Definition py_max {A} (l : list A) (key : A -> Q) : M A :=
  match l with
  | [] => raise ValueError
  | x :: l' => ret (max_from key x l')
  end.

(** ** numpy *)

Record ndarray (A : Type) : Type := mk_ndarray { shape : list nat; data : list A }.
Arguments mk_ndarray {A} shape data.
Arguments shape {A} n.
Arguments data {A} n.

Definition size_of (s : list nat) : nat := fold_right Nat.mul 1 s.

(** An array holds as many elements as its shape says. *)
Definition wf {A} (a : ndarray A) : Prop := length (data a) = size_of (shape a).

Definition count_true (m : list bool) : nat := length (filter (fun b => b) m).

(** The elements of [xs] at the true positions of [m]. *)
Fixpoint select {A} (m : list bool) (xs : list A) : list A :=
  match m, xs with
  | b :: m', x :: xs' => if b then x :: select m' xs' else select m' xs'
  | _, _ => []
  end.

(** The same for sub-arrays of [c] consecutive elements each. *)
Fixpoint select_chunks {A} (c : nat) (m : list bool) (xs : list A) : list A :=
  match m with
  | [] => []
  | b :: m' => (if b then firstn c xs else []) ++ select_chunks c m' (skipn c xs)
  end.

Fixpoint chunks {A} (rows n : nat) (xs : list A) : list (list A) :=
  match rows with
  | O => []
  | S r => firstn n xs :: chunks r n (skipn n xs)
  end.

(** [match_axes p s]: the axes of an array of shape [s] that a boolean
    index of shape [p] leaves, when numpy accepts the index. The index
    takes the leading axes of the array, one per axis of its own; numpy
    compares the lengths axis by axis, but only where the boolean axis has
    a length other than 0. *)
Fixpoint match_axes (p s : list nat) : option (list nat) :=
  match p, s with
  | [], rest => Some rest
  | x :: p', y :: s' => if (x =? 0) || (x =? y) then match_axes p' s' else None
  | _ :: _, [] => None
  end.

(** Writing [v] at the true positions of [m]: the j-th included cell is
    updated with the j-th value. *)
Fixpoint scatter {A B} (upd : A -> B -> A) (m : list bool) (cur : list A) (v : list B)
  : list A :=
  match m, cur with
  | b :: m', a :: cur' =>
      if b then
        match v with
        | x :: v' => upd a x :: scatter upd m' cur' v'
        | [] => a :: scatter upd m' cur' []
        end
      else a :: scatter upd m' cur' v
  | _, _ => cur
  end.

Fixpoint set_nth {A} (i : nat) (x : A) (l : list A) : list A :=
  match l, i with
  | [], _ => []
  | _ :: l', O => x :: l'
  | y :: l', S i' => y :: set_nth i' x l'
  end.

Fixpoint argmax_from (best_i : nat) (best : Q) (i : nat) (l : list Q) : nat :=
  match l with
  | [] => best_i
  | x :: l' => if Qlt_bool best x then argmax_from i x (S i) l'
               else argmax_from best_i best (S i) l'
  end.

Module np.

(** [a > 0] *)
Definition gt0 (a : ndarray Q) : ndarray bool :=
  mk_ndarray (shape a) (map (fun x => Qlt_bool 0 x) (data a)).

(** [np.zeros(shape)] *)
Definition zeros (s : list nat) : ndarray Q :=
  mk_ndarray s (repeat 0%Q (size_of s)).

(** [np.zeros(shape + (3,))], kept as one row of 3 values per voxel. *)
Definition zeros3 (s : list nat) : list (list Q) :=
  repeat (repeat 0%Q 3) (size_of s).

(** [a[m]] for a boolean array [m]: [m] indexes the leading axes of [a];
    [IndexError] when [m] has more axes than [a] or an axis of [m] of
    length other than 0 differs from the axis of [a] (an axis of length 0
    is not compared: such a mask has no element and selects nothing). The
    result lists the selected sub-arrays along a new first axis; with
    equal shapes these are single elements. *)
Definition getitem_mask {A} (a : ndarray A) (m : ndarray bool) : M (ndarray A) :=
  match match_axes (shape m) (shape a) with
  | Some rest =>
      ret (mk_ndarray (count_true (data m) :: rest)
                      (select_chunks (size_of rest) (data m) (data a)))
  | None => raise IndexError
  end.

(** [len(a)] *)
Definition len {A} (a : ndarray A) : M nat :=
  match shape a with
  | [] => raise TypeError
  | n :: _ => ret n
  end.

(** [a.reshape(-1, n)], as the list of its rows: [ValueError] when [n]
    is 0 or does not divide the size of [a]. *)
Definition reshape_rows {A} (a : ndarray A) (n : nat) : M (list (list A)) :=
  if (n =? 0) || negb (length (data a) mod n =? 0) then raise ValueError
  else ret (chunks (length (data a) / n) n (data a)).

(** Broadcasting of a one-dimensional right-hand side to the [n] cells
    an indexed assignment selects. *)
Definition broadcast {B} (v : list B) (n : nat) : M (list B) :=
  if length v =? n then ret v
  else match v with
       | [x] => ret (repeat x n)
       | _ => raise ValueError
       end.

(** [cur[m] = v], the cells of [cur] being updated through [upd]. *)
Definition setitem_mask {A B} (upd : A -> B -> A) (cur : list A) (m : list bool)
           (v : list B) : M (list A) :=
  v' <- broadcast v (count_true m) ;;
  ret (scatter upd m cur v').

(** [rows[m, i] = v] on an array of shape [s + (3,)] given by its rows:
    the right-hand side is broadcast first; a channel [i] out of bounds is
    an [IndexError], unless the mask selects nothing and no cell is
    indexed. *)
Definition setitem_mask_channel (rows : list (list Q)) (m : list bool) (i : nat)
           (v : list Q) : M (list (list Q)) :=
  v' <- broadcast v (count_true m) ;;
  if (3 <=? i) && negb (count_true m =? 0) then raise IndexError
  else ret (scatter (fun r x => set_nth i x r) m rows v').

(** [np.argmax] of one row: the first index holding the maximum. *)
Definition argmax (row : list Q) : nat :=
  match row with
  | [] => 0
  | x :: l => argmax_from 0 x 1 l
  end.

(** [np.argsort(w)]. The default sort of numpy orders arrays of fewer
    than 17 elements by insertion, which keeps equal keys in index
    order. *)
Definition argsort (w : list Q) : list nat :=
  map fst (sorted (enumerate w) snd).

(** The array of shape [s + (3,)] made of the rows [rows]. *)
Definition of_rows (s : list nat) (rows : list (list Q)) : ndarray Q :=
  mk_ndarray (s ++ [3]) (concat rows).

End np.

(** ** The fitted mixture model *)

Record GaussianMixture : Type := {
  weights_ : list Q;
  means_ : list Q;                                 (* one feature: one mean per component *)
  predict : list Q -> list nat;
  predict_proba : list Q -> list (list Q)          (* one row per sample *)
}.

(** What [gmm_class_mask] returns: the white-matter peak or a mask. *)
Inductive gmm_result : Type :=
| wm_peak_of (x : Q)
| mask_of (a : ndarray Q).

(** ** The two engines *)

Section Engines.

(** [skfuzzy.cmeans(data, c, m, error, maxiter)]: the centers and the
    membership rows (one row per cluster), or an exception. The data
    has one row per feature; with one feature a center is one number. *)
Variable cmeans :
  list (list Q) -> nat -> Q -> Q -> nat -> exn + (list Q * list (list Q)).

(** [GaussianMixture(n_components).fit(X)] for single-feature samples. *)
Variable GaussianMixture_fit : nat -> list Q -> exn + GaussianMixture.

Definition run_cmeans (d : list (list Q)) (c : nat) (m : Q) (error : Q) (maxiter : nat)
  : M (list Q * list (list Q)) :=
  ([cmeans_call d c m error maxiter],
   match cmeans d c m error maxiter with
   | inl e => Raise e
   | inr r => Ok r
   end).

Definition run_fit (n : nat) (X : list Q) : M GaussianMixture :=
  ([GaussianMixture_fit_call n X],
   match GaussianMixture_fit n X with
   | inl e => Raise e
   | inr g => Ok g
   end).

(** Lines 31-34 and 70-73. *)
Definition mask_data (img_data : ndarray Q) (brain_mask : option (ndarray Q))
  : ndarray bool :=
  match brain_mask with
  | Some bm => np.gt0 bm
  | None => np.gt0 img_data
  end.

(** Not a step of the source. A selection that is not one-dimensional
    (the brain mask has fewer axes than the image) leads, past the fit,
    to sorts of vector-valued centers and to assignments between arrays of
    several axes; these are outside the embedding, which stops here. *)
Definition one_dim {A} (a : ndarray A) : M unit :=
  match shape a with
  | [_] => ret tt
  | _ => unmodelled
  end.

Definition fcm_class_mask (img : ndarray Q) (brain_mask : option (ndarray Q))
           (hard_seg : bool) : M (ndarray Q) :=
  let img_data := img in
  let mask_data := mask_data img_data brain_mask in
  sel <- np.getitem_mask img_data mask_data ;;
  n <- (mm <- np.getitem_mask mask_data mask_data ;; np.len mm) ;;
  d <- np.reshape_rows sel n ;;
  '(t1_cntr, t1_mem) <- run_cmeans d 3 2%Q (5 # 1000)%Q 50 ;;
  _ <- one_dim sel ;;
  t1_mem_list <- mapM (fun '(i, _) => getitem t1_mem i)
                      (sorted (enumerate t1_cntr) snd) ;;
  let mask := np.zeros3 (shape img_data) in
  mask <- foldM (fun mask i =>
                   row <- getitem t1_mem_list i ;;
                   np.setitem_mask (fun r x => set_nth i x r) mask (data mask_data) row)
                (seq 0 3) mask ;;
  if hard_seg then
    let tmp_mask := np.zeros (shape img_data) in
    let winners := map (fun r => inject_Z (Z.of_nat (np.argmax r + 1)))
                       (select (data mask_data) mask) in
    tmp <- np.setitem_mask (fun _ x => x) (data tmp_mask) (data mask_data) winners ;;
    ret (mk_ndarray (shape img_data) tmp)
  else
    ret (np.of_rows (shape img_data) mask).

(** [predicted[tmp_predicted == c] = v] *)
Definition assign_where (tmp_predicted : list nat) (c : nat) (v : Q)
           (predicted : list Q) : list Q :=
  map (fun '(t, p) => if t =? c then v else p) (combine tmp_predicted predicted).

Definition gmm_class_mask (img : ndarray Q) (brain_mask : option (ndarray Q))
           (contrast : string) (return_wm_peak : bool) (hard_seg : bool)
  : M gmm_result :=
  let img_data := img in
  let mask_data := mask_data img_data brain_mask in
  sel <- np.getitem_mask img_data mask_data ;;
  let brain := data sel in
  gmm <- run_fit 3 brain ;;
  let weights := weights_ gmm in
  if return_wm_peak then
    let means := means_ gmm in
    wm_peak <- (if String.eqb contrast "t1"%string then py_max means (fun x => x)
                else (p <- py_max (combine means weights) snd ;; ret (fst p))) ;;
    ret (wm_peak_of wm_peak)
  else
    _ <- one_dim sel ;;
    let classes := np.argsort weights in
    if hard_seg then
      let tmp_predicted := predict gmm brain in
      let predicted := repeat 0%Q (length tmp_predicted) in
      let predicted :=
        fold_left (fun predicted '(i, c) =>
                     assign_where tmp_predicted c (inject_Z (Z.of_nat i) + 1)%Q predicted)
                  (enumerate classes) predicted in
      let mask := np.zeros (shape img_data) in
      m <- np.setitem_mask (fun _ x => x) (data mask) (data mask_data)
                           (map (fun x => (x + 1)%Q) predicted) ;;
      ret (mask_of (mk_ndarray (shape img_data) m))
    else
      let predicted_proba := predict_proba gmm brain in
      let mask := np.zeros3 (shape img_data) in
      mask <- foldM (fun mask '(i, c) =>
                       col <- mapM (fun row => getitem row c) predicted_proba ;;
                       np.setitem_mask_channel mask (data mask_data) i col)
                    (enumerate classes) mask ;;
      ret (mask_of (np.of_rows (shape img_data) mask)).

End Engines.

(** The exception classes the specification names; the module itself
    defines and raises none of them. *)
Definition EmptyMaskError : exn := OtherError "EmptyMaskError".
Definition ShapeMismatch : exn := OtherError "ShapeMismatch".

(** ** Sample inputs *)

(** A fitter in the manner of [skfuzzy.cmeans]: centers 5, 1 and 3 and
    constant memberships 0.1, 0.7 and 0.2 for every sample. *)
Definition sample_cmeans (d : list (list Q)) (c : nat) (m error : Q) (maxiter : nat)
  : exn + (list Q * list (list Q)) :=
  let xs := hd [] d in
  inr ([5; 1; 3]%Q,
       [map (fun _ => 1 # 10) xs; map (fun _ => 7 # 10) xs; map (fun _ => 2 # 10) xs]%Q).

(** A fitted mixture: the component of a sample is decided by two
    thresholds, its posterior is constant. *)
Definition sample_model (weights means : list Q) : GaussianMixture :=
  {| weights_ := weights;
     means_ := means;
     predict := map (fun x => if Qle_bool x 15 then 0 else if Qle_bool x 25 then 2 else 1);
     predict_proba := map (fun _ => [1 # 2; 1 # 4; 1 # 4]%Q) |}.

(** A fitter in the manner of [GaussianMixture.fit]: [ValueError] with
    fewer samples than components. *)
Definition sample_fit (g : GaussianMixture) (n : nat) (X : list Q)
  : exn + GaussianMixture :=
  if length X <? n then inl ValueError else inr g.

Definition sample_gmm : GaussianMixture :=
  sample_model [5 # 10; 2 # 10; 3 # 10]%Q [10; 30; 20]%Q.

(** Two components share the maximal weight. *)
Definition tied_gmm : GaussianMixture :=
  sample_model [2 # 5; 2 # 5; 1 # 5]%Q [10; 30; 20]%Q.

Definition sample_img : ndarray Q := mk_ndarray [2; 2] [10; 0; 30; 20]%Q.
Definition sample_brain_mask : ndarray Q := mk_ndarray [2; 2] [1; 0; 1; 1]%Q.
Definition blank_img : ndarray Q := mk_ndarray [2] [0; 0]%Q.

(** Two fits of 2 samples that differ only in the raw order of their
    first two clusters, whose centers tie. *)
Definition tied_cmeans_a (d : list (list Q)) (c : nat) (m error : Q) (maxiter : nat)
  : exn + (list Q * list (list Q)) :=
  inr ([1; 1; 3]%Q, [[1; 0]; [0; 1]; [0; 0]]%Q).

Definition tied_cmeans_b (d : list (list Q)) (c : nat) (m error : Q) (maxiter : nat)
  : exn + (list Q * list (list Q)) :=
  inr ([1; 1; 3]%Q, [[0; 1]; [1; 0]; [0; 0]]%Q).

Definition two_voxels : ndarray Q := mk_ndarray [2] [10; 20]%Q.

(** Brain masks of another shape than the image they come with: 3 voxels
    for [two_voxels], and the 2 rows of [sample_img]. *)
Definition long_mask : ndarray Q := mk_ndarray [3] [1; 1; 0]%Q.
Definition row_mask : ndarray Q := mk_ndarray [2] [1; 1]%Q.

(** A brain mask without any voxel. *)
Definition empty_axis_mask : ndarray Q := mk_ndarray [0] []%Q.

(** The fits [sample_cmeans] and [sample_gmm] with their components in
    another raw order: component [t] here is component [nth t [2; 0; 1] 0]
    there. *)
Definition permuted_cmeans (d : list (list Q)) (c : nat) (m error : Q) (maxiter : nat)
  : exn + (list Q * list (list Q)) :=
  let xs := hd [] d in
  inr ([3; 5; 1]%Q,
       [map (fun _ => 2 # 10) xs; map (fun _ => 1 # 10) xs; map (fun _ => 7 # 10) xs]%Q).

Definition permuted_gmm : GaussianMixture :=
  {| weights_ := [3 # 10; 5 # 10; 2 # 10]%Q;
     means_ := [20; 10; 30]%Q;
     predict := map (fun x => if Qle_bool x 15 then 1 else if Qle_bool x 25 then 0 else 2);
     predict_proba := map (fun _ => [1 # 4; 1 # 2; 1 # 4]%Q) |}.

(** ** Specification vocabulary *)

(** The index a voxel at flat position [p] has in the masked intensity
    vector: the number of included voxels before it. *)
Definition rank (m : list bool) (p : nat) : nat := count_true (firstn p m).

(** Number of nonzero entries of an array. *)
Definition count_nonzero (xs : list Q) : nat :=
  length (filter (fun x => negb (Qeq_bool x 0)) xs).

(** The three class values of the voxel at flat position [p] of an array
    whose last axis has length 3. *)
Definition class_value (a : ndarray Q) (p i : nat) : Q := nth (3 * p + i) (data a) 0%Q.

(** The masked intensity vector: the intensities at the included
    voxels, in mask order. *)
Definition masked_vector (img : ndarray Q) (brain_mask : option (ndarray Q)) : list Q :=
  select (data (mask_data img brain_mask)) (data img).

(** The per-voxel rows of a soft mask whose class [i] holds, at the
    included voxels, the values [nth i L []]. *)
Definition class_rows (m : list bool) (n : nat) (L : list (list Q)) : list (list Q) :=
  fold_left (fun rows i => scatter (fun r x => set_nth i x r) m rows (nth i L []))
            (seq 0 3) (repeat (repeat 0%Q 3) n).

(** The hard mask with one value per included voxel, and the winner of a
    row of class values. *)
Definition hard_mask (img : ndarray Q) (m : list bool) (v : list Q) : ndarray Q :=
  mk_ndarray (shape img)
             (scatter (fun _ x => x) m (repeat 0%Q (size_of (shape img))) v).

Definition winner (r : list Q) : Q := inject_Z (Z.of_nat (np.argmax r + 1)).

(** What [fcm_class_mask] returns once the membership rows are in class
    order. *)
Definition fcm_output (img : ndarray Q) (bm : option (ndarray Q)) (hard_seg : bool)
           (L : list (list Q)) : ndarray Q :=
  let m := data (mask_data img bm) in
  let rows := class_rows m (size_of (shape img)) L in
  if hard_seg then hard_mask img m (map winner (select m rows))
  else np.of_rows (shape img) rows.

(** The contract of [skfuzzy.cmeans] for 3 clusters and [k] samples of
    one feature: 3 centers and 3 membership rows of [k] values. *)
Definition cmeans_contract (k : nat) (r : list Q * list (list Q)) : Prop :=
  length (fst r) = 3 /\ length (snd r) = 3 /\
  forall row, In row (snd r) -> length row = k.

(** The membership rows in ascending order of their centers. *)
Definition ordered_rows (cntr : list Q) (mem : list (list Q)) : list (list Q) :=
  map (fun i => nth i mem []) (np.argsort cntr).

(** The three membership values of the j-th included voxel, in class
    order. *)
Definition memberships_at (cntr : list Q) (mem : list (list Q)) (j : nat) : list Q :=
  map (fun r => nth j r 0%Q) (ordered_rows cntr mem).

(** The contract of a 3-component [GaussianMixture] fitted to the
    single-feature samples [X]: 3 weights and 3 means, one label below 3
    and one row of 3 probabilities per sample. *)
Definition gmm_contract (X : list Q) (g : GaussianMixture) : Prop :=
  length (weights_ g) = 3 /\ length (means_ g) = 3 /\
  length (predict g X) = length X /\
  (forall t, In t (predict g X) -> t < 3) /\
  length (predict_proba g X) = length X /\
  (forall row, In row (predict_proba g X) -> length row = 3).

(** The value the relabelling loop of [gmm_class_mask] leaves for the raw
    label [t]. *)
Definition relabel (classes : list nat) (t : nat) : Q :=
  fold_left (fun v '(i, c) => if t =? c then (inject_Z (Z.of_nat i) + 1)%Q else v)
            (enumerate classes) 0%Q.

(** Column [c] of a matrix given by its rows. *)
Definition column (rows : list (list Q)) (c : nat) : list Q :=
  map (fun row => nth c row 0%Q) rows.

(** What [gmm_class_mask] returns in mask mode for the fitted model [g]. *)
Definition gmm_output (img : ndarray Q) (bm : option (ndarray Q)) (hard_seg : bool)
           (g : GaussianMixture) : ndarray Q :=
  let m := data (mask_data img bm) in
  let brain := masked_vector img bm in
  let classes := np.argsort (weights_ g) in
  if hard_seg
  then hard_mask img m (map (fun t => (relabel classes t + 1)%Q) (predict g brain))
  else np.of_rows (shape img)
         (class_rows m (size_of (shape img)) (map (column (predict_proba g brain)) classes)).

(** A hard mask labels exactly the included voxels: as many nonzero
    entries as the mask has true ones, a nonzero entry at every included
    voxel and 0 at every excluded one. *)
Definition labels_exactly (m : list bool) (out : ndarray Q) : Prop :=
  count_nonzero (data out) = count_true m /\
  forall p, p < length m ->
    (nth p m false = true -> ~ (nth p (data out) 0 == 0)%Q) /\
    (nth p m false = false -> nth p (data out) 0%Q = 0%Q).

Definition Qsum (l : list Q) : Q := fold_right Qplus 0%Q l.

(** A step that calls no fitting routine. *)
Definition silent {A} (m : M A) : Prop := trace m = [].

(** A soft mask partitions every included voxel among the 3 classes and
    is 0 at every excluded voxel. *)
Definition partition_at (m : list bool) (soft : ndarray Q) : Prop :=
  forall p, p < length m ->
    if nth p m false
    then (class_value soft p 0 + class_value soft p 1 + class_value soft p 2 == 1)%Q
    else forall i, i < 3 -> class_value soft p i = 0%Q.

(** Two fits of the same clusters in different raw orders: the (center,
    membership row) pairs of one are a permutation of those of the other. *)
Definition permuted_clusters (r1 r2 : list Q * list (list Q)) : Prop :=
  length (fst r1) = length (snd r1) /\ length (fst r2) = length (snd r2) /\
  Permutation (combine (fst r1) (snd r1)) (combine (fst r2) (snd r2)).

(** No two entries of [w] are equal. *)
Definition pairwise_distinct (w : list Q) : Prop :=
  forall i j, i < length w -> j < length w -> (nth i w 0 == nth j w 0)%Q -> i = j.

(** Two mixtures with the same components in different raw orders on the
    samples [X]: component [t] of [g2] is component [nth t sigma 0] of
    [g1], for the weights, the means, the predicted labels and the
    columns of the posterior probabilities. *)
Definition permuted_model (X : list Q) (g1 g2 : GaussianMixture) : Prop :=
  exists sigma,
    Permutation sigma (seq 0 (length (weights_ g1))) /\
    weights_ g2 = map (fun c => nth c (weights_ g1) 0%Q) sigma /\
    means_ g2 = map (fun c => nth c (means_ g1) 0%Q) sigma /\
    predict g1 X = map (fun t => nth t sigma 0) (predict g2 X) /\
    predict_proba g2 X =
      map (fun row => map (fun c => nth c row 0%Q) sigma) (predict_proba g1 X).

(** Ascending order of keys, and lists where elements with equal keys
    are equal: no two components tie. *)
Definition key_le {A} (key : A -> Q) (x y : A) : Prop := (key x <= key y)%Q.

Definition distinct_keys {A} (key : A -> Q) (l : list A) : Prop :=
  forall x y, In x l -> In y l -> (key x == key y)%Q -> x = y.

(** The inclusion mask agrees with the image on its shape. *)
Definition same_shape (img : ndarray Q) (brain_mask : option (ndarray Q)) : Prop :=
  match brain_mask with
  | Some bm => shape bm = shape img /\ wf bm
  | None => True
  end.

(** ** Further vocabulary *)

(** A fitter that fails, and inputs that differ from the samples above
    only where it should not matter: the intensity of the excluded voxel,
    and the positive values of the brain mask. *)
Definition failing_cmeans (d : list (list Q)) (c : nat) (m error : Q) (maxiter : nat)
  : exn + (list Q * list (list Q)) :=
  inl ValueError.

Definition sample_img_variant : ndarray Q := mk_ndarray [2; 2] [10; 99; 30; 20]%Q.
Definition scaled_brain_mask : ndarray Q := mk_ndarray [2; 2] [2; 0; 5; 7]%Q.

(** The rows of an array of shape [s + (3,)] with [n] voxels. *)
Definition well_shaped (n : nat) (rows : list (list Q)) : Prop :=
  length rows = n /\ Forall (fun r => length r = 3) rows.

(** A trace of at most one call, which then satisfies [P]. *)
Definition at_most_one (P : call -> Prop) (t : list call) : Prop :=
  t = [] \/ exists c, t = [c] /\ P c.

(** The calls with the hyperparameters the module hard-codes. *)
Definition fuzzy_call (c : call) : Prop :=
  exists d, c = cmeans_call d 3 2%Q (5 # 1000)%Q 50.

Definition mixture_call (c : call) : Prop :=
  exists X, c = GaussianMixture_fit_call 3 X.

(** Ascending keys, and ascending raw index among equal keys: on
    (index, key) pairs, and on the indices of the centers [cntr]. *)
Definition key_then_index (x y : nat * Q) : Prop :=
  (snd x < snd y)%Q \/ ((snd x == snd y)%Q /\ fst x < fst y).

Definition center_then_index (cntr : list Q) (i j : nat) : Prop :=
  (nth i cntr 0 < nth j cntr 0)%Q \/ ((nth i cntr 0 == nth j cntr 0)%Q /\ i < j).

(** A boolean index of shape [p] that numpy refuses on an array of shape
    [s]: more axes than the array, or an axis of length other than 0
    that differs from the axis of the array. *)
Definition axes_clash (p s : list nat) : Prop :=
  length s < length p \/
  exists j, j < length p /\ nth j p 0 <> 0 /\ nth j p 0 <> nth j s 0.

(** ** The monad *)

Lemma bind_ret {A B} (a : A) (f : A -> M B) : bind (ret a) f = f a.
Proof. unfold bind, ret. destruct (f a); reflexivity. Qed.

Lemma bind_call {A B} (c : call) (a : A) (f : A -> M B) :
  bind ([c], Ok a) f = (c :: trace (f a), outcome (f a)).
Proof. unfold bind, trace, outcome. destruct (f a); reflexivity. Qed.

Lemma bind_call_ret {A B} (c : call) (a : A) (f : A -> M B) (b : B) :
  f a = ret b -> bind ([c], Ok a) f = ([c], Ok b).
Proof. unfold bind. now intros ->. Qed.

Lemma bind_Ok_inv {A B} (m : M A) (f : A -> M B) t b :
  bind m f = (t, Ok b) ->
  exists t1 a t2, m = (t1, Ok a) /\ f a = (t2, Ok b) /\ t = t1 ++ t2.
Proof.
  unfold bind. destruct m as [t1 [a | e |]]; try discriminate.
  destruct (f a) as [t2 r] eqn:E. intros H. injection H as <- ->.
  exists t1, a, t2. auto.
Qed.

Lemma mapM_getitem_fst {A B} (l : list A) (js : list (nat * B)) (d : A) :
  (forall j, In j js -> fst j < length l) ->
  mapM (fun '(i, _) => getitem l i) js = ret (map (fun j => nth (fst j) l d) js).
Proof.
  induction js as [| [i x] js IH]; intros H; simpl; [reflexivity |].
  unfold getitem at 1.
  destruct (nth_error l i) as [y |] eqn:E.
  - rewrite bind_ret, IH by (intros; apply H; now right).
    rewrite bind_ret. now rewrite (nth_error_nth _ _ d E).
  - apply nth_error_None in E. specialize (H (i, x) (or_introl eq_refl)). simpl in H. lia.
Qed.

Lemma mapM_getitem_col {A} (rows : list (list A)) (c : nat) (d : A) :
  (forall r, In r rows -> c < length r) ->
  mapM (fun row => getitem row c) rows = ret (map (fun row => nth c row d) rows).
Proof.
  induction rows as [| r rows IH]; intros H; simpl; [reflexivity |].
  unfold getitem at 1.
  destruct (nth_error r c) as [y |] eqn:E.
  - rewrite bind_ret, IH by (intros; apply H; now right).
    rewrite bind_ret. now rewrite (nth_error_nth _ _ d E).
  - apply nth_error_None in E. specialize (H r (or_introl eq_refl)). lia.
Qed.

(** ** Comparisons on rationals *)

Lemma Qlt_bool_iff (x y : Q) : Qlt_bool x y = true <-> (x < y)%Q.
Proof.
  unfold Qlt_bool. rewrite negb_true_iff. split.
  - intros H. apply Qnot_le_lt. intros L. apply Qle_bool_iff in L. congruence.
  - intros H. destruct (Qle_bool y x) eqn:E; [| reflexivity].
    apply Qle_bool_iff in E. exfalso. exact (Qlt_not_le _ _ H E).
Qed.

Lemma Qlt_bool_false_iff (x y : Q) : Qlt_bool x y = false <-> (y <= x)%Q.
Proof.
  unfold Qlt_bool. rewrite negb_false_iff. apply Qle_bool_iff.
Qed.

(** ** Lists, masks and positions *)

Lemma length_eq_3 {A} (l : list A) :
  length l = 3 -> exists a b c, l = [a; b; c].
Proof.
  destruct l as [| a [| b [| c [| ? ?]]]]; try discriminate. eauto.
Qed.

Lemma rank_lt (m : list bool) (p : nat) :
  nth p m false = true -> rank m p < count_true m.
Proof.
  unfold rank, count_true. revert p.
  induction m as [| b m IH]; intros [| p]; simpl; try discriminate.
  - intros ->. simpl. lia.
  - intros H. specialize (IH p H). destruct b; simpl; lia.
Qed.

Lemma select_length {A} (m : list bool) (xs : list A) :
  length m = length xs -> length (select m xs) = count_true m.
Proof.
  revert xs. induction m as [| b m IH]; intros [| x xs]; simpl; try discriminate; auto.
  intros H. injection H as H. unfold count_true in *. destruct b; simpl; auto.
Qed.

Lemma select_rank {A} (m : list bool) (xs : list A) (p : nat) (d : A) :
  length m = length xs -> nth p m false = true ->
  nth (rank m p) (select m xs) d = nth p xs d.
Proof.
  unfold rank. revert xs p. induction m as [| b m IH]; intros [| x xs] [| p]; simpl;
    try discriminate.
  - intros _ ->. reflexivity.
  - intros H Hp. injection H as H. specialize (IH xs p H Hp).
    unfold count_true in *. destruct b; simpl; auto.
Qed.

Lemma select_chunks_1 {A} (m : list bool) (xs : list A) :
  length m = length xs -> select_chunks 1 m xs = select m xs.
Proof.
  revert xs. induction m as [| b m IH]; intros [| x xs]; simpl; try discriminate; auto.
  intros H. injection H as H. rewrite IH by assumption. destruct b; reflexivity.
Qed.

Lemma match_axes_refl (s : list nat) : match_axes s s = Some [].
Proof.
  induction s as [| x s IH]; simpl; [reflexivity |].
  now rewrite Nat.eqb_refl, orb_true_r.
Qed.


Lemma match_axes_clash (p s : list nat) : axes_clash p s -> match_axes p s = None.
Proof.
  revert s. induction p as [| x p IH]; intros s [Hl | (j & Hj & H0 & Hd)]; simpl in *;
    try lia.
  - destruct s as [| y s]; [reflexivity |]. simpl in Hl.
    destruct ((x =? 0) || (x =? y)); [| reflexivity]. apply IH. left. lia.
  - destruct s as [| y s]; [reflexivity |].
    destruct j as [| j]; simpl in H0, Hd.
    + apply Nat.eqb_neq in H0, Hd. now rewrite H0, Hd.
    + destruct ((x =? 0) || (x =? y)); [| reflexivity].
      apply IH. right. exists j. repeat split; auto. lia.
Qed.

Lemma scatter_length {A B} (upd : A -> B -> A) (m : list bool) (cur : list A) (v : list B) :
  length (scatter upd m cur v) = length cur.
Proof.
  revert cur v. induction m as [| b m IH]; intros [| a cur] v; simpl; auto.
  destruct b; [destruct v |]; simpl; now rewrite IH.
Qed.

Lemma scatter_nth {A B} (upd : A -> B -> A) (m : list bool) (cur : list A) (v : list B)
      (p : nat) (d : A) (dv : B) :
  length m = length cur -> length v = count_true m -> p < length m ->
  nth p (scatter upd m cur v) d =
    if nth p m false then upd (nth p cur d) (nth (rank m p) v dv) else nth p cur d.
Proof.
  unfold rank, count_true.
  revert cur v p. induction m as [| b m IH]; intros [| a cur] v p; simpl; try discriminate;
    try lia.
  intros Hl Hv Hp. injection Hl as Hl.
  destruct b; simpl in *.
  - destruct v as [| x v]; [discriminate |]. injection Hv as Hv.
    destruct p as [| p]; simpl; [reflexivity |]. apply IH; auto; lia.
  - destruct p as [| p]; simpl; [reflexivity |]. apply IH; auto; lia.
Qed.

Lemma repeat_nth {A} (x d : A) (n p : nat) : p < n -> nth p (repeat x n) d = x.
Proof.
  revert p. induction n as [| n IH]; intros [| p] H; simpl; try lia; auto.
  apply IH. lia.
Qed.

Lemma concat_nth_3 (rows : list (list Q)) (p i : nat) :
  (forall r, In r rows -> length r = 3) -> i < 3 ->
  nth (3 * p + i) (concat rows) 0%Q = nth i (nth p rows []) 0%Q.
Proof.
  revert p. induction rows as [| r rows IH]; intros p Hr Hi.
  - simpl. destruct (3 * p + i), p, i; reflexivity.
  - destruct (length_eq_3 r (Hr r (or_introl eq_refl))) as (a & b & c & ->).
    destruct p as [| p].
    + destruct i as [| [| [| i]]]; try lia; reflexivity.
    + replace (3 * S p + i) with (S (S (S (3 * p + i)))) by lia.
      simpl concat. simpl nth. apply IH; auto. intros r Hin. apply Hr. now right.
Qed.

(** ** [sorted]: a stable sort into ascending key order *)

Section Sorting.

Context {A : Type} (key : A -> Q).

Lemma insert_by_perm (x : A) (l : list A) : Permutation (insert_by key x l) (x :: l).
Proof.
  induction l as [| y l IH]; simpl; [reflexivity |].
  destruct (Qlt_bool (key y) (key x)); [| reflexivity].
  rewrite IH. apply perm_swap.
Qed.

Lemma insert_by_ascending (x : A) (l : list A) :
  StronglySorted (key_le key) l -> StronglySorted (key_le key) (insert_by key x l).
Proof.
  induction 1 as [| y l Hs IH Hy]; simpl.
  - repeat constructor.
  - destruct (Qlt_bool (key y) (key x)) eqn:E.
    + constructor; [exact IH |].
      apply Forall_forall. intros z Hz.
      apply (Permutation_in _ (insert_by_perm x l)) in Hz.
      destruct Hz as [<- | Hz].
      * apply Qlt_bool_iff in E. unfold key_le. lra.
      * rewrite Forall_forall in Hy. now apply Hy.
    + apply Qlt_bool_false_iff in E.
      constructor; [now constructor |].
      constructor; [exact E |].
      apply Forall_forall. intros z Hz. rewrite Forall_forall in Hy.
      specialize (Hy z Hz). unfold key_le in *. lra.
Qed.

Lemma sorted_perm (l : list A) : Permutation (sorted l key) l.
Proof.
  induction l as [| x l IH]; simpl; [reflexivity |].
  rewrite insert_by_perm. now constructor.
Qed.

Lemma sorted_ascending (l : list A) : StronglySorted (key_le key) (sorted l key).
Proof.
  induction l as [| x l IH]; simpl; [constructor |].
  now apply insert_by_ascending.
Qed.

(** With distinct keys there is one ascending arrangement only. *)
Lemma ascending_unique (l1 l2 : list A) :
  StronglySorted (key_le key) l1 -> StronglySorted (key_le key) l2 ->
  Permutation l1 l2 -> distinct_keys key l1 -> l1 = l2.
Proof.
  intros H1. revert l2.
  induction H1 as [| x l1 Hs IH Hx]; intros l2 H2 HP HD.
  - apply Permutation_nil in HP. now subst.
  - destruct H2 as [| y l2 Hs2 Hy].
    + apply Permutation_sym, Permutation_nil in HP. discriminate.
    + assert (x = y) as <-.
      { assert (In y (x :: l1)) as Iy
            by (apply (Permutation_in _ (Permutation_sym HP)); now left).
        assert (In x (y :: l2)) as Ix by (apply (Permutation_in _ HP); now left).
        apply HD; [now left | exact Iy |].
        rewrite Forall_forall in Hx, Hy. unfold key_le in *.
        destruct Iy as [-> | Iy]; [reflexivity |].
        destruct Ix as [-> | Ix]; [reflexivity |].
        specialize (Hx y Iy). specialize (Hy x Ix). lra. }
      f_equal. apply IH; [exact Hs2 | now apply Permutation_cons_inv in HP |].
      intros a b Ha Hb. apply HD; now right.
Qed.

Lemma distinct_keys_perm (l1 l2 : list A) :
  Permutation l1 l2 -> distinct_keys key l1 -> distinct_keys key l2.
Proof.
  intros HP HD x y Hx Hy.
  apply HD; apply (Permutation_in _ (Permutation_sym HP)); assumption.
Qed.

(** The order in which components with distinct keys are handed to
    [sorted] does not matter. *)
Lemma sorted_order_irrelevant (l1 l2 : list A) :
  Permutation l1 l2 -> distinct_keys key l1 -> sorted l1 key = sorted l2 key.
Proof.
  intros HP HD. apply ascending_unique; try apply sorted_ascending.
  - rewrite !sorted_perm. exact HP.
  - apply (distinct_keys_perm l1); [symmetry; apply sorted_perm | exact HD].
Qed.

(** [max(l, key=key)] splits its argument around the first maximum. *)
Lemma max_from_split (best : A) (l : list A) :
  exists l1 l2, best :: l = l1 ++ max_from key best l :: l2 /\
    (forall y, In y l1 -> (key y < key (max_from key best l))%Q) /\
    (forall y, In y l2 -> (key y <= key (max_from key best l))%Q).
Proof.
  revert best. induction l as [| y l IH]; intros best; simpl.
  - exists [], []. split; [reflexivity |]. split; intros ? [].
  - destruct (Qlt_bool (key best) (key y)) eqn:E.
    + apply Qlt_bool_iff in E.
      destruct (IH y) as (l1 & l2 & Heq & H1 & H2).
      exists (best :: l1), l2. split; [simpl; now rewrite <- Heq |].
      split; [| exact H2].
      intros z [<- | Hz]; [| now apply H1].
      assert (In y (l1 ++ max_from key y l :: l2)) as Iy by (rewrite <- Heq; now left).
      apply in_app_or in Iy. destruct Iy as [Iy | [Iy | Iy]].
      * specialize (H1 y Iy). lra.
      * rewrite Iy. exact E.
      * specialize (H2 y Iy). lra.
    + apply Qlt_bool_false_iff in E.
      destruct (IH best) as (l1 & l2 & Heq & H1 & H2).
      destruct l1 as [| b l1]; simpl in Heq; injection Heq as Hb Hl.
      * exists [], (y :: l). split; [simpl; now rewrite <- Hb |].
        split; [intros ? [] |].
        intros z [<- | Hz]; [rewrite <- Hb; exact E |].
        apply H2. rewrite <- Hl. exact Hz.
      * subst b. exists (best :: y :: l1), l2.
        split; [simpl; now rewrite <- Hl |]. split; [| exact H2].
        assert (key best < key (max_from key best l))%Q as Hbest by (apply H1; now left).
        intros z [<- | [<- | Hz]]; [exact Hbest | lra | apply H1; now right].
Qed.

End Sorting.

Lemma insert_by_map {A B} (f : A -> B) (key : B -> Q) (x : A) (l : list A) :
  insert_by key (f x) (map f l) = map f (insert_by (fun a => key (f a)) x l).
Proof.
  induction l as [| y l IH]; simpl; [reflexivity |].
  destruct (Qlt_bool (key (f y)) (key (f x))); simpl; [now rewrite IH | reflexivity].
Qed.

Lemma sorted_map {A B} (f : A -> B) (key : B -> Q) (l : list A) :
  sorted (map f l) key = map f (sorted l (fun a => key (f a))).
Proof.
  induction l as [| x l IH]; simpl; [reflexivity |].
  now rewrite IH, insert_by_map.
Qed.

(** ** [enumerate] and [np.argsort] *)

Lemma enumerate_fst {A} (l : list A) : map fst (enumerate l) = seq 0 (length l).
Proof.
  unfold enumerate. generalize 0. induction l as [| x l IH]; intros n; simpl;
    [reflexivity | now rewrite IH].
Qed.

Lemma enumerate_snd {A} (l : list A) : map snd (enumerate l) = l.
Proof.
  unfold enumerate. generalize 0. induction l as [| x l IH]; intros n; simpl;
    [reflexivity | now rewrite IH].
Qed.

Lemma enumerate_In {A} (l : list A) (i : nat) (x d : A) :
  In (i, x) (enumerate l) -> i < length l /\ nth i l d = x.
Proof.
  unfold enumerate.
  assert (forall n, In (i, x) (combine (seq n (length l)) l) ->
                    n <= i < n + length l /\ nth (i - n) l d = x) as G.
  { induction l as [| y l IH]; intros n; simpl; [intros [] |].
    intros [H | H].
    - injection H as <- <-. rewrite Nat.sub_diag. split; [lia | reflexivity].
    - destruct (IH (S n) H) as [Hi Hn]. split; [lia |].
      replace (i - n) with (S (i - S n)) by lia. exact Hn. }
  intros H. destruct (G 0 H) as [Hi Hn]. rewrite Nat.sub_0_r in Hn. split; [lia | exact Hn].
Qed.

(** [np.argsort] returns a permutation of the indices... *)
Lemma argsort_perm (w : list Q) : Permutation (np.argsort w) (seq 0 (length w)).
Proof.
  unfold np.argsort. rewrite <- enumerate_fst. apply Permutation_map, sorted_perm.
Qed.

Lemma argsort_length (w : list Q) : length (np.argsort w) = length w.
Proof. rewrite (Permutation_length (argsort_perm w)). apply length_seq. Qed.

Lemma argsort_keys (w : list Q) :
  map (fun i => nth i w 0%Q) (np.argsort w) = map snd (sorted (enumerate w) snd).
Proof.
  unfold np.argsort. rewrite map_map. apply map_ext_in.
  intros [i x] H. simpl.
  apply (Permutation_in _ (sorted_perm snd (enumerate w))) in H.
  now destruct (enumerate_In w i x 0%Q H).
Qed.

(** ... along which the keys ascend. *)
Lemma argsort_ascending (w : list Q) :
  StronglySorted Qle (map (fun i => nth i w 0%Q) (np.argsort w)).
Proof.
  rewrite argsort_keys.
  generalize (sorted_ascending snd (enumerate w)).
  generalize (sorted (enumerate w) snd). intros l H.
  induction H as [| x l Hs IH Hx]; simpl; constructor; auto.
  rewrite Forall_map. exact Hx.
Qed.

Lemma argsort_lt (w : list Q) (i : nat) : In i (np.argsort w) -> i < length w.
Proof.
  intros H. apply (Permutation_in _ (argsort_perm w)) in H.
  apply in_seq in H. lia.
Qed.

(** ** Extraction of the masked intensity vector *)

Lemma mask_data_shape img bm : same_shape img bm -> shape (mask_data img bm) = shape img.
Proof. destruct bm as [bm |]; simpl; [now intros [-> _] | reflexivity]. Qed.

Lemma mask_data_length img bm :
  same_shape img bm -> wf img -> length (data (mask_data img bm)) = length (data img).
Proof.
  unfold wf. destruct bm as [bm |]; simpl; rewrite length_map; [| reflexivity].
  intros [Hs Hb] Hi. unfold wf in Hb. congruence.
Qed.

Lemma getitem_mask_same {A} (a : ndarray A) (m : ndarray bool) :
  shape m = shape a -> length (data m) = length (data a) ->
  np.getitem_mask a m = ret (mk_ndarray [count_true (data m)] (select (data m) (data a))).
Proof.
  intros Hs Hl. unfold np.getitem_mask. rewrite Hs, match_axes_refl. simpl.
  now rewrite select_chunks_1.
Qed.

Lemma len_cons {A} (n : nat) (s : list nat) (xs : list A) :
  np.len (mk_ndarray (n :: s) xs) = ret n.
Proof. reflexivity. Qed.

Lemma one_dim_vector {A} (n : nat) (xs : list A) : one_dim (mk_ndarray [n] xs) = ret tt.
Proof. reflexivity. Qed.

Lemma masked_vector_length img bm :
  same_shape img bm -> wf img ->
  length (masked_vector img bm) = count_true (data (mask_data img bm)).
Proof.
  intros Hs Hw. unfold masked_vector. apply select_length. now apply mask_data_length.
Qed.

Lemma reshape_rows_vector {A} (xs : list A) (s : list nat) :
  length xs <> 0 -> np.reshape_rows (mk_ndarray s xs) (length xs) = ret [xs].
Proof.
  intros H. unfold np.reshape_rows. simpl.
  rewrite Nat.Div0.mod_same, Nat.div_same by assumption.
  destruct (Nat.eqb_spec (length xs) 0); [contradiction |]. simpl.
  now rewrite firstn_all.
Qed.

Lemma broadcast_same {B} (v : list B) (n : nat) : length v = n -> np.broadcast v n = ret v.
Proof. intros <-. unfold np.broadcast. now rewrite Nat.eqb_refl. Qed.

Lemma setitem_mask_exact {A B} (upd : A -> B -> A) cur m (v : list B) :
  length v = count_true m -> np.setitem_mask upd cur m v = ret (scatter upd m cur v).
Proof.
  intros H. unfold np.setitem_mask. rewrite broadcast_same by assumption.
  now rewrite bind_ret.
Qed.

Lemma setitem_mask_channel_exact rows m (i : nat) (v : list Q) :
  i < 3 -> length v = count_true m ->
  np.setitem_mask_channel rows m i v = ret (scatter (fun r x => set_nth i x r) m rows v).
Proof.
  intros Hi H. unfold np.setitem_mask_channel.
  rewrite broadcast_same, bind_ret by assumption.
  destruct (Nat.leb_spec 3 i); [lia | reflexivity].
Qed.

(** ** The outcomes of [fcm_class_mask] *)

Section FuzzyOutcomes.

Variable cmeans :
  list (list Q) -> nat -> Q -> Q -> nat -> exn + (list Q * list (list Q)).

Ltac extract Hs Hw :=
  unfold fcm_class_mask;
  rewrite (getitem_mask_same _ (mask_data _ _))
    by (try apply mask_data_shape; try apply mask_data_length; assumption);
  rewrite (getitem_mask_same (mask_data _ _) (mask_data _ _)) by reflexivity;
  rewrite !bind_ret, len_cons, bind_ret;
  match goal with
  | |- context [select (data (mask_data ?i ?b)) (data ?i)] =>
      fold (masked_vector i b);
      rewrite <- (masked_vector_length i b Hs Hw)
  end.

Lemma fcm_empty img bm hard_seg :
  same_shape img bm -> wf img -> masked_vector img bm = [] ->
  fcm_class_mask cmeans img bm hard_seg = raise ValueError.
Proof.
  intros Hs Hw He. extract Hs Hw. rewrite He. reflexivity.
Qed.

Lemma fcm_fit_raises img bm hard_seg e :
  same_shape img bm -> wf img -> masked_vector img bm <> [] ->
  cmeans [masked_vector img bm] 3 2%Q (5 # 1000)%Q 50 = inl e ->
  fcm_class_mask cmeans img bm hard_seg =
    ([cmeans_call [masked_vector img bm] 3 2%Q (5 # 1000)%Q 50], Raise e).
Proof.
  intros Hs Hw He Hc. extract Hs Hw.
  rewrite reshape_rows_vector, bind_ret by (now destruct (masked_vector img bm)).
  unfold run_cmeans. rewrite Hc. reflexivity.
Qed.

Lemma fcm_fitted img bm hard_seg cntr mem :
  same_shape img bm -> wf img -> masked_vector img bm <> [] ->
  cmeans [masked_vector img bm] 3 2%Q (5 # 1000)%Q 50 = inr (cntr, mem) ->
  cmeans_contract (length (masked_vector img bm)) (cntr, mem) ->
  fcm_class_mask cmeans img bm hard_seg =
    ([cmeans_call [masked_vector img bm] 3 2%Q (5 # 1000)%Q 50],
     Ok (fcm_output img bm hard_seg (ordered_rows cntr mem))).
Proof.
  intros Hs Hw He Hc (H1 & H2 & H3). simpl in H1, H2, H3.
  pose proof (masked_vector_length img bm Hs Hw) as Hk.
  extract Hs Hw.
  rewrite reshape_rows_vector, bind_ret by (now destruct (masked_vector img bm)).
  unfold run_cmeans. rewrite Hc. apply bind_call_ret.
  assert (forall j, In j (sorted (enumerate cntr) snd) -> fst j < length mem) as Hj.
  { intros [i x] Hin. apply (Permutation_in _ (sorted_perm snd _)) in Hin.
    destruct (enumerate_In cntr i x 0%Q Hin). simpl. lia. }
  rewrite one_dim_vector, bind_ret.
  rewrite (mapM_getitem_fst mem _ [] Hj), bind_ret.
  rewrite <- (map_map fst (fun i => nth i mem [])).
  fold (np.argsort cntr). fold (ordered_rows cntr mem).
  assert (length (ordered_rows cntr mem) = 3) as HL
      by (unfold ordered_rows; now rewrite length_map, argsort_length).
  assert (forall r, In r (ordered_rows cntr mem) ->
                    length r = count_true (data (mask_data img bm))) as HR.
  { intros r Hr. unfold ordered_rows in Hr. apply in_map_iff in Hr.
    destruct Hr as (i & <- & Hi). rewrite <- Hk. apply H3, nth_In.
    apply argsort_lt in Hi. lia. }
  unfold fcm_output, class_rows.
  destruct (length_eq_3 _ HL) as (L0 & L1 & L2 & E). rewrite E in *.
  cbn [foldM seq getitem nth_error fold_left nth].
  repeat (rewrite ?bind_ret; rewrite setitem_mask_exact by (apply HR; simpl; auto)).
  rewrite !bind_ret.
  destruct hard_seg; [| reflexivity].
  rewrite setitem_mask_exact, bind_ret; [reflexivity |].
  rewrite length_map. apply select_length.
  rewrite !scatter_length. unfold np.zeros3. rewrite repeat_length.
  rewrite (mask_data_length img bm Hs Hw). exact Hw.
Qed.

End FuzzyOutcomes.

(** ** [np.argmax] *)

Lemma argmax_from_spec (l pre : list Q) (bi : nat) (b : Q) :
  bi < length pre -> nth bi pre 0%Q = b ->
  (forall k, k < length pre -> (nth k pre 0 <= b)%Q) ->
  (forall k, k < bi -> (nth k pre 0 < b)%Q) ->
  let a := argmax_from bi b (length pre) l in
  a < length (pre ++ l) /\
  (forall k, k < length (pre ++ l) -> (nth k (pre ++ l) 0 <= nth a (pre ++ l) 0)%Q) /\
  (forall k, k < a -> (nth k (pre ++ l) 0 < nth a (pre ++ l) 0)%Q).
Proof.
  revert pre bi b. induction l as [| x l IH]; intros pre bi b Hbi Hb Hmax Hfirst; simpl.
  - rewrite app_nil_r. rewrite Hb. auto.
  - replace (pre ++ x :: l) with ((pre ++ [x]) ++ l) by (now rewrite <- app_assoc).
    replace (S (length pre)) with (length (pre ++ [x])) by (rewrite length_app; simpl; lia).
    assert (forall k, k < length pre -> nth k (pre ++ [x]) 0%Q = nth k pre 0%Q) as Hpre
        by (intros; now apply app_nth1).
    assert (nth (length pre) (pre ++ [x]) 0%Q = x) as Hx
        by (rewrite app_nth2, Nat.sub_diag by lia; reflexivity).
    destruct (Qlt_bool b x) eqn:E.
    + apply Qlt_bool_iff in E.
      apply IH.
      * rewrite length_app. simpl. lia.
      * exact Hx.
      * intros k Hk. rewrite length_app in Hk. simpl in Hk.
        destruct (Nat.eq_dec k (length pre)) as [-> | N].
        -- rewrite Hx. lra.
        -- rewrite Hpre by lia. specialize (Hmax k ltac:(lia)). lra.
      * intros k Hk. rewrite Hpre by lia. specialize (Hmax k Hk). lra.
    + apply Qlt_bool_false_iff in E.
      apply IH.
      * rewrite length_app. simpl. lia.
      * rewrite Hpre by lia. exact Hb.
      * intros k Hk. rewrite length_app in Hk. simpl in Hk.
        destruct (Nat.eq_dec k (length pre)) as [-> | N].
        -- rewrite Hx. exact E.
        -- rewrite Hpre by lia. apply Hmax. lia.
      * intros k Hk. rewrite Hpre by lia. now apply Hfirst.
Qed.

(** [np.argmax] returns the first index that holds the maximum. *)
Lemma argmax_spec (row : list Q) :
  row <> [] ->
  np.argmax row < length row /\
  (forall k, k < length row -> (nth k row 0 <= nth (np.argmax row) row 0)%Q) /\
  (forall k, k < np.argmax row -> (nth k row 0 < nth (np.argmax row) row 0)%Q).
Proof.
  destruct row as [| x l]; [congruence | intros _].
  apply (argmax_from_spec l [x] 0 x); simpl; try lia; auto.
  intros [| k] Hk; [lra | lia].
Qed.

(** ** The rows of a soft mask *)

Lemma class_rows_nth (m : list bool) (n : nat) (L0 L1 L2 : list Q) (p : nat) :
  length m = n ->
  length L0 = count_true m -> length L1 = count_true m -> length L2 = count_true m ->
  p < n ->
  nth p (class_rows m n [L0; L1; L2]) [] =
    if nth p m false
    then [nth (rank m p) L0 0%Q; nth (rank m p) L1 0%Q; nth (rank m p) L2 0%Q]
    else repeat 0%Q 3.
Proof.
  intros Hm H0 H1 H2 Hp. unfold class_rows. cbn [fold_left seq nth].
  rewrite !(scatter_nth _ m _ _ p [] 0%Q);
    rewrite ?scatter_length, ?repeat_length; try lia.
  rewrite repeat_nth by assumption.
  destruct (nth p m false); reflexivity.
Qed.

Lemma class_rows_length (m : list bool) (n : nat) (L : list (list Q)) :
  length (class_rows m n L) = n.
Proof.
  unfold class_rows. cbn [fold_left seq]. now rewrite !scatter_length, repeat_length.
Qed.

Lemma class_rows_width (m : list bool) (n : nat) (L0 L1 L2 : list Q) :
  length m = n ->
  length L0 = count_true m -> length L1 = count_true m -> length L2 = count_true m ->
  forall r, In r (class_rows m n [L0; L1; L2]) -> length r = 3.
Proof.
  intros Hm H0 H1 H2 r Hr.
  destruct (In_nth _ _ [] Hr) as (p & Hp & <-).
  rewrite class_rows_length in Hp.
  rewrite class_rows_nth by assumption. destruct (nth p m false); reflexivity.
Qed.

Lemma hard_mask_nth (img : ndarray Q) (m : list bool) (v : list Q) (p : nat) :
  length m = size_of (shape img) -> length v = count_true m -> p < length m ->
  nth p (data (hard_mask img m v)) 0%Q =
    if nth p m false then nth (rank m p) v 0%Q else 0%Q.
Proof.
  intros Hm Hv Hp. unfold hard_mask. simpl data.
  rewrite (scatter_nth _ m _ _ p 0%Q 0%Q); rewrite ?repeat_length; try lia.
  rewrite repeat_nth by lia. reflexivity.
Qed.

Lemma of_rows_class_value (s : list nat) (rows : list (list Q)) (p i : nat) :
  (forall r, In r rows -> length r = 3) -> i < 3 ->
  class_value (np.of_rows s rows) p i = nth i (nth p rows []) 0%Q.
Proof. intros Hr Hi. unfold class_value, np.of_rows. simpl data. now apply concat_nth_3. Qed.

Lemma nth_map_lt {A B} (f : A -> B) (l : list A) (i : nat) (d : A) (e : B) :
  i < length l -> nth i (map f l) e = f (nth i l d).
Proof.
  intros H. rewrite (nth_indep _ e (f d)) by (now rewrite length_map). apply map_nth.
Qed.

Lemma ordered_rows_nth (cntr : list Q) (mem : list (list Q)) (i : nat) :
  i < length cntr ->
  nth i (ordered_rows cntr mem) [] = nth (nth i (np.argsort cntr) 0) mem [].
Proof.
  intros H. unfold ordered_rows.
  apply (nth_map_lt (fun i => nth i mem [])). now rewrite argsort_length.
Qed.

Lemma ordered_rows_contract (k : nat) (cntr : list Q) (mem : list (list Q)) :
  cmeans_contract k (cntr, mem) ->
  exists L0 L1 L2, ordered_rows cntr mem = [L0; L1; L2] /\
    length L0 = k /\ length L1 = k /\ length L2 = k.
Proof.
  intros (H1 & H2 & H3). simpl in *.
  assert (length (ordered_rows cntr mem) = 3) as HL
      by (unfold ordered_rows; now rewrite length_map, argsort_length).
  destruct (length_eq_3 _ HL) as (L0 & L1 & L2 & E).
  assert (forall r, In r (ordered_rows cntr mem) -> length r = k) as HR.
  { intros r Hr. unfold ordered_rows in Hr. apply in_map_iff in Hr.
    destruct Hr as (i & <- & Hi). apply H3, nth_In. apply argsort_lt in Hi. lia. }
  rewrite E in HR. exists L0, L1, L2. repeat split; try exact E; apply HR; simpl; auto.
Qed.

(** ** Fuzzy clustering: class order and hard segmentation *)

Section FuzzyLabels.

Variable cmeans :
  list (list Q) -> nat -> Q -> Q -> nat -> exn + (list Q * list (list Q)).

(** C3. With the 3 clusters that [cmeans] fits to the masked intensities,
    [fcm_class_mask] orders the classes by ascending cluster center: the
    class order is a permutation of the raw cluster indices along which
    the centers ascend, and class [i] of the soft mask holds the
    memberships of the cluster with the i-th lowest center. With
    [hard_seg] every included voxel receives 1 plus the first index of
    the maximum of its 3 ordered membership values, a label among 1, 2
    and 3, and every excluded voxel receives 0. *)
Theorem fcm_class_order_and_labels img bm cntr mem :
  same_shape img bm -> wf img -> masked_vector img bm <> [] ->
  cmeans [masked_vector img bm] 3 2%Q (5 # 1000)%Q 50 = inr (cntr, mem) ->
  cmeans_contract (length (masked_vector img bm)) (cntr, mem) ->
  let m := data (mask_data img bm) in
  Permutation (np.argsort cntr) [0; 1; 2] /\
  StronglySorted Qle (map (fun i => nth i cntr 0%Q) (np.argsort cntr)) /\
  (exists soft,
      outcome (fcm_class_mask cmeans img bm false) = Ok soft /\
      forall p i, p < length (data img) -> nth p m false = true -> i < 3 ->
        class_value soft p i =
          nth (rank m p) (nth (nth i (np.argsort cntr) 0) mem []) 0%Q) /\
  (exists hard,
      outcome (fcm_class_mask cmeans img bm true) = Ok hard /\
      shape hard = shape img /\
      forall p, p < length (data img) ->
        if nth p m false then
          let row := memberships_at cntr mem (rank m p) in
          nth p (data hard) 0%Q = inject_Z (Z.of_nat (1 + np.argmax row)) /\
          In (nth p (data hard) 0%Q) [1; 2; 3]%Q /\
          (forall i, i < 3 -> (nth i row 0 <= nth (np.argmax row) row 0)%Q) /\
          (forall i, i < np.argmax row -> (nth i row 0 < nth (np.argmax row) row 0)%Q)
        else nth p (data hard) 0%Q = 0%Q).
Proof.
  intros Hs Hw He Hc Hk m.
  pose proof (mask_data_length img bm Hs Hw) as Hm. fold m in Hm.
  pose proof (masked_vector_length img bm Hs Hw) as Hv. fold m in Hv.
  pose proof Hk as (H1 & H2 & H3). simpl in H1, H2, H3.
  destruct (ordered_rows_contract _ _ _ Hk) as (L0 & L1 & L2 & E & E0 & E1 & E2).
  rewrite Hv in E0, E1, E2.
  assert (length m = size_of (shape img)) as Hn by (rewrite Hm; exact Hw).
  split; [| split; [| split]].
  - rewrite (argsort_perm cntr), H1. reflexivity.
  - apply argsort_ascending.
  - eexists. split; [rewrite (fcm_fitted cmeans img bm false cntr mem) by assumption;
                     reflexivity |].
    intros p i Hp Hin Hi. unfold fcm_output. fold m.
    rewrite E, of_rows_class_value by (try apply class_rows_width; assumption).
    rewrite class_rows_nth, Hin by (try assumption; lia).
    rewrite <- ordered_rows_nth, E by lia.
    destruct i as [| [| [| i]]]; try lia; reflexivity.
  - eexists. split; [rewrite (fcm_fitted cmeans img bm true cntr mem) by assumption;
                     reflexivity |].
    split; [reflexivity |].
    intros p Hp. unfold fcm_output. fold m. rewrite E.
    assert (length (class_rows m (size_of (shape img)) [L0; L1; L2]) = length m) as Hr
        by (rewrite class_rows_length; now symmetry).
    rewrite hard_mask_nth
      by (rewrite ?length_map, ?select_length; auto; lia).
    destruct (nth p m false) eqn:Hin; [| reflexivity].
    rewrite (nth_map_lt _ _ _ [])
      by (rewrite select_length by (now symmetry); now apply rank_lt).
    rewrite select_rank by (auto; now symmetry).
    rewrite class_rows_nth, Hin by (try assumption; lia).
    unfold memberships_at. rewrite E. cbn [map].
    set (row := [nth (rank m p) L0 0%Q; nth (rank m p) L1 0%Q; nth (rank m p) L2 0%Q]).
    destruct (argmax_spec row ltac:(discriminate)) as (Ha & Hmax & Hfirst).
    cbv zeta. unfold winner. rewrite (Nat.add_comm (np.argmax row) 1).
    split; [reflexivity |]. split; [| split; assumption].
    change (length row) with 3 in Ha.
    destruct (np.argmax row) as [| [| [| a]]]; try lia; simpl; auto.
Qed.

End FuzzyLabels.

(** ** [max] and the relabelling loop *)

Lemma py_max_index {A} (key : A -> Q) (l : list A) (d : A) :
  l <> [] ->
  exists j, j < length l /\ py_max l key = ret (nth j l d) /\
    (forall i, i < length l -> (key (nth i l d) <= key (nth j l d))%Q) /\
    (forall i, i < j -> (key (nth i l d) < key (nth j l d))%Q).
Proof.
  destruct l as [| x l]; [congruence | intros _].
  destruct (max_from_split key x l) as (l1 & l2 & E & H1 & H2).
  assert (nth (length l1) (x :: l) d = max_from key x l) as Hj
      by (rewrite E, app_nth2, Nat.sub_diag by lia; reflexivity).
  exists (length l1). rewrite Hj. split; [| split; [reflexivity | split]].
  - rewrite E, length_app. simpl. lia.
  - intros i Hi. rewrite E in Hi |- *. 
    destruct (Nat.lt_ge_cases i (length l1)) as [Hlt | Hge].
    + rewrite app_nth1 by assumption. apply Qlt_le_weak, H1, nth_In, Hlt.
    + rewrite app_nth2 by assumption. rewrite length_app in Hi. simpl in Hi.
      destruct (i - length l1) as [| k] eqn:Ek; simpl; [lra |].
      apply H2, nth_In. lia.
  - intros i Hi. rewrite E at 1. rewrite app_nth1 by assumption. apply H1, nth_In, Hi.
Qed.

Lemma assign_where_map (tp : list nat) (c : nat) (v : Q) (f : nat -> Q) :
  assign_where tp c v (map f tp) = map (fun t => if t =? c then v else f t) tp.
Proof.
  unfold assign_where. induction tp as [| t tp IH]; simpl; [reflexivity | now rewrite IH].
Qed.

Lemma relabel_loop (tp : list nat) (l : list (nat * nat)) (f : nat -> Q) :
  fold_left (fun predicted '(i, c) =>
               assign_where tp c (inject_Z (Z.of_nat i) + 1)%Q predicted) l (map f tp) =
  map (fun t => fold_left (fun v '(i, c) =>
                             if t =? c then (inject_Z (Z.of_nat i) + 1)%Q else v) l (f t)) tp.
Proof.
  revert f. induction l as [| [i c] l IH]; intros f; simpl; [reflexivity |].
  now rewrite assign_where_map, IH.
Qed.

Lemma repeat_map {A B} (x : B) (l : list A) : repeat x (length l) = map (fun _ => x) l.
Proof. induction l; simpl; congruence. Qed.

(** ** The outcomes of [gmm_class_mask] *)

Section MixtureOutcomes.

Variable GaussianMixture_fit : nat -> list Q -> exn + GaussianMixture.

Ltac extract Hs Hw :=
  unfold gmm_class_mask;
  rewrite (getitem_mask_same _ (mask_data _ _))
    by (try apply mask_data_shape; try apply mask_data_length; assumption);
  rewrite bind_ret; simpl data;
  match goal with
  | |- context [select (data (mask_data ?i ?b)) (data ?i)] =>
      fold (masked_vector i b)
  end.

Lemma gmm_fit_raises img bm contrast return_wm_peak hard_seg e :
  same_shape img bm -> wf img ->
  GaussianMixture_fit 3 (masked_vector img bm) = inl e ->
  gmm_class_mask GaussianMixture_fit img bm contrast return_wm_peak hard_seg =
    ([GaussianMixture_fit_call 3 (masked_vector img bm)], Raise e).
Proof.
  intros Hs Hw Hf. extract Hs Hw. unfold run_fit. rewrite Hf. reflexivity.
Qed.

Lemma gmm_fitted_mask img bm contrast hard_seg g :
  same_shape img bm -> wf img ->
  GaussianMixture_fit 3 (masked_vector img bm) = inr g ->
  gmm_contract (masked_vector img bm) g ->
  gmm_class_mask GaussianMixture_fit img bm contrast false hard_seg =
    ([GaussianMixture_fit_call 3 (masked_vector img bm)],
     Ok (mask_of (gmm_output img bm hard_seg g))).
Proof.
  intros Hs Hw Hf (H1 & H2 & H3 & H4 & H5 & H6).
  pose proof (masked_vector_length img bm Hs Hw) as Hk.
  extract Hs Hw. unfold run_fit. rewrite Hf. apply bind_call_ret.
  rewrite one_dim_vector, bind_ret. unfold gmm_output.
  destruct hard_seg.
  - rewrite repeat_map, relabel_loop.
    rewrite setitem_mask_exact, bind_ret by (rewrite !length_map; congruence).
    rewrite map_map. reflexivity.
  - assert (length (np.argsort (weights_ g)) = 3) as HL by (now rewrite argsort_length).
    pose proof (argsort_lt (weights_ g)) as Hlt.
    destruct (length_eq_3 _ HL) as (c0 & c1 & c2 & E). rewrite E in *.
    cbn [enumerate length seq combine foldM map]. 
    rewrite !(mapM_getitem_col _ _ 0%Q)
      by (intros r Hr; rewrite (H6 r Hr), <- H1; apply Hlt; simpl; auto).
    fold (column (predict_proba g (masked_vector img bm)) c0).
    fold (column (predict_proba g (masked_vector img bm)) c1).
    fold (column (predict_proba g (masked_vector img bm)) c2).
    repeat (rewrite ?bind_ret;
            rewrite setitem_mask_channel_exact
              by (try lia; unfold column; rewrite length_map; congruence)).
    rewrite !bind_ret. reflexivity.
Qed.

Lemma gmm_fitted_peak img bm contrast hard_seg g :
  same_shape img bm -> wf img ->
  GaussianMixture_fit 3 (masked_vector img bm) = inr g ->
  length (means_ g) = 3 -> length (weights_ g) = 3 ->
  exists j, j < 3 /\
    gmm_class_mask GaussianMixture_fit img bm contrast true hard_seg =
      ([GaussianMixture_fit_call 3 (masked_vector img bm)],
       Ok (wm_peak_of (nth j (means_ g) 0%Q))) /\
    let key := if String.eqb contrast "t1" then means_ g else weights_ g in
    (forall i, i < 3 -> (nth i key 0 <= nth j key 0)%Q) /\
    (forall i, i < j -> (nth i key 0 < nth j key 0)%Q).
Proof.
  intros Hs Hw Hf Hm Hwt.
  destruct (String.eqb contrast "t1") eqn:Ec.
  - destruct (py_max_index (fun x => x) (means_ g) 0%Q) as (j & Hj & Hmax & Hle & Hlt).
    { intros E. rewrite E in Hm. discriminate. }
    exists j. split; [lia |]. split; [| rewrite <- Hm; auto].
    extract Hs Hw. unfold run_fit. rewrite Hf. apply bind_call_ret.
    rewrite Ec, Hmax, bind_ret. reflexivity.
  - destruct (py_max_index snd (combine (means_ g) (weights_ g)) (0%Q, 0%Q))
      as (j & Hj & Hmax & Hle & Hlt).
    { intros E. apply (f_equal (@length _)) in E. rewrite length_combine, Hm, Hwt in E.
      discriminate. }
    rewrite length_combine, Hm, Hwt in Hj, Hle. simpl in Hj, Hle.
    assert (forall i, nth i (combine (means_ g) (weights_ g)) (0%Q, 0%Q) =
                      (nth i (means_ g) 0%Q, nth i (weights_ g) 0%Q)) as Hn
        by (intros; apply combine_nth; congruence).
    exists j. split; [lia |]. split.
    + extract Hs Hw. unfold run_fit. rewrite Hf. apply bind_call_ret.
      rewrite Ec, Hmax, !bind_ret, Hn. reflexivity.
    + split.
      * intros i Hi. specialize (Hle i Hi). now rewrite !Hn in Hle.
      * intros i Hi. specialize (Hlt i Hi). now rewrite !Hn in Hlt.
Qed.

End MixtureOutcomes.

Lemma relabel_rank (c0 c1 c2 t : nat) :
  In t [c0; c1; c2] ->
  exists r, r < 3 /\ nth r [c0; c1; c2] 0 = t /\
    relabel [c0; c1; c2] t = (inject_Z (Z.of_nat r) + 1)%Q.
Proof.
  intros Hin. unfold relabel. cbn [enumerate length seq combine fold_left].
  destruct (Nat.eqb_spec t c2) as [-> | N2]; [exists 2; auto |].
  destruct (Nat.eqb_spec t c1) as [-> | N1]; [exists 1; auto |].
  destruct (Nat.eqb_spec t c0) as [-> | N0]; [exists 0; auto |].
  simpl in Hin. intuition congruence.
Qed.

(** ** Mixture model: hard segmentation and the white-matter peak *)

Section MixtureLabels.

Variable GaussianMixture_fit : nat -> list Q -> exn + GaussianMixture.

(** C1. In mask mode with [hard_seg], for the 3-component model fitted
    to the masked intensities, [gmm_class_mask] orders the components by
    ascending weight and every included voxel receives the 1-based rank
    of its predicted component in that order plus 1 more, a value among
    2, 3 and 4; every excluded voxel holds 0. *)
Theorem gmm_hard_seg_labels img bm contrast g :
  same_shape img bm -> wf img ->
  GaussianMixture_fit 3 (masked_vector img bm) = inr g ->
  gmm_contract (masked_vector img bm) g ->
  let m := data (mask_data img bm) in
  let classes := np.argsort (weights_ g) in
  Permutation classes [0; 1; 2] /\
  StronglySorted Qle (map (fun c => nth c (weights_ g) 0%Q) classes) /\
  exists out,
    gmm_class_mask GaussianMixture_fit img bm contrast false true =
      ([GaussianMixture_fit_call 3 (masked_vector img bm)], Ok (mask_of out)) /\
    shape out = shape img /\
    forall p, p < length (data img) ->
      if nth p m false then
        exists r, r < 3 /\
          nth r classes 0 = nth (rank m p) (predict g (masked_vector img bm)) 0 /\
          nth p (data out) 0%Q = (inject_Z (Z.of_nat (r + 1)) + 1)%Q /\
          In (nth p (data out) 0%Q) [2; 3; 4]%Q
      else nth p (data out) 0%Q = 0%Q.
Proof.
  intros Hs Hw Hf Hg m classes.
  pose proof Hg as (H1 & H2 & H3 & H4 & H5 & H6).
  pose proof (mask_data_length img bm Hs Hw) as Hm. fold m in Hm.
  pose proof (masked_vector_length img bm Hs Hw) as Hv. fold m in Hv.
  assert (Permutation classes [0; 1; 2]) as HP
      by (unfold classes; rewrite (argsort_perm (weights_ g)), H1; reflexivity).
  split; [exact HP |]. split; [apply argsort_ascending |].
  eexists. split; [apply (gmm_fitted_mask _ img bm contrast true g); assumption |].
  split; [reflexivity |].
  intros p Hp. unfold gmm_output. fold m. fold classes.
  rewrite hard_mask_nth by (rewrite ?length_map; unfold wf in Hw; lia).
  destruct (nth p m false) eqn:Hin; [| reflexivity].
  assert (rank m p < length (predict g (masked_vector img bm))) as Hr
      by (rewrite H3, Hv; now apply rank_lt).
  rewrite (nth_map_lt _ _ _ 0) by exact Hr.
  set (t := nth (rank m p) (predict g (masked_vector img bm)) 0).
  assert (In t classes) as Ht.
  { apply (Permutation_in _ (Permutation_sym HP)).
    assert (t < 3) as Hlt by (apply H4, nth_In, Hr).
    simpl. lia. }
  destruct (length_eq_3 classes (Permutation_length HP)) as (c0 & c1 & c2 & E).
  rewrite E in *.
  destruct (relabel_rank c0 c1 c2 t Ht) as (r & Hr3 & Hnth & ->).
  exists r. split; [exact Hr3 |]. split; [exact Hnth |].
  destruct r as [| [| [| r]]]; try lia; simpl; auto.
Qed.

(** C2. With [return_wm_peak], [gmm_class_mask] returns a scalar and no
    array: for contrast ['t1'] the maximum of the 3 fitted means, and
    for any other contrast the mean of a component whose mixture weight
    is maximal. *)
Theorem gmm_wm_peak img bm contrast hard_seg g :
  same_shape img bm -> wf img ->
  GaussianMixture_fit 3 (masked_vector img bm) = inr g ->
  length (means_ g) = 3 -> length (weights_ g) = 3 ->
  exists x,
    gmm_class_mask GaussianMixture_fit img bm contrast true hard_seg =
      ([GaussianMixture_fit_call 3 (masked_vector img bm)], Ok (wm_peak_of x)) /\
    (contrast = "t1"%string ->
       In x (means_ g) /\ forall y, In y (means_ g) -> (y <= x)%Q) /\
    (contrast <> "t1"%string ->
       exists j, j < 3 /\ x = nth j (means_ g) 0%Q /\
         forall i, i < 3 -> (nth i (weights_ g) 0 <= nth j (weights_ g) 0)%Q).
Proof.
  intros Hs Hw Hf Hm Hwt.
  destruct (gmm_fitted_peak GaussianMixture_fit img bm contrast hard_seg g
              Hs Hw Hf Hm Hwt) as (j & Hj & Hrun & Hle & _).
  exists (nth j (means_ g) 0%Q). split; [exact Hrun |]. split.
  - intros Hc. apply String.eqb_eq in Hc. rewrite Hc in Hle.
    split; [apply nth_In; lia |].
    intros y Hy. destruct (In_nth _ _ 0%Q Hy) as (i & Hi & <-). apply Hle. lia.
  - intros Hc. apply String.eqb_neq in Hc. rewrite Hc in Hle.
    exists j. auto.
Qed.

(** C10. With [return_wm_peak] and a contrast other than ['t1'], the
    returned peak is the mean of the first component, in the raw
    component order of the model, whose weight is maximal: every
    component has at most that weight and every earlier one has strictly
    less. *)
Theorem gmm_wm_peak_first_maximal_weight img bm contrast hard_seg g :
  same_shape img bm -> wf img ->
  GaussianMixture_fit 3 (masked_vector img bm) = inr g ->
  length (means_ g) = 3 -> length (weights_ g) = 3 ->
  contrast <> "t1"%string ->
  exists j, j < 3 /\
    gmm_class_mask GaussianMixture_fit img bm contrast true hard_seg =
      ([GaussianMixture_fit_call 3 (masked_vector img bm)],
       Ok (wm_peak_of (nth j (means_ g) 0%Q))) /\
    (forall i, i < 3 -> (nth i (weights_ g) 0 <= nth j (weights_ g) 0)%Q) /\
    (forall i, i < j -> (nth i (weights_ g) 0 < nth j (weights_ g) 0)%Q).
Proof.
  intros Hs Hw Hf Hm Hwt Hc.
  destruct (gmm_fitted_peak GaussianMixture_fit img bm contrast hard_seg g
              Hs Hw Hf Hm Hwt) as (j & Hj & Hrun & Hkey).
  apply String.eqb_neq in Hc. rewrite Hc in Hkey.
  exists j. auto.
Qed.

End MixtureLabels.

(** ** Steps that call no fitting routine *)

Lemma silent_ret {A} (a : A) : silent (ret a).
Proof. reflexivity. Qed.

Lemma silent_raise {A} (e : exn) : silent (@raise A e).
Proof. reflexivity. Qed.

Lemma silent_bind {A B} (m : M A) (f : A -> M B) :
  silent m -> (forall a, silent (f a)) -> silent (bind m f).
Proof.
  unfold silent, trace, bind. destruct m as [t [a | e |]]; simpl; intros -> Hf; auto.
  specialize (Hf a). destruct (f a). simpl in *. now subst.
Qed.

Lemma trace_bind_call {A B} (c : call) (r : result A) (f : A -> M B) :
  (forall a, silent (f a)) -> trace (bind ([c], r) f) = [c].
Proof.
  intros Hf. unfold bind, trace. destruct r as [a | e |]; auto.
  specialize (Hf a). unfold silent, trace in Hf. destruct (f a). simpl in *. now subst.
Qed.

Lemma silent_getitem {A} (l : list A) (i : nat) : silent (getitem l i).
Proof. unfold getitem. now destruct (nth_error l i). Qed.

Lemma silent_mapM {A B} (f : A -> M B) (l : list A) :
  (forall a, silent (f a)) -> silent (mapM f l).
Proof.
  intros Hf. induction l as [| x l IH]; simpl; [apply silent_ret |].
  apply silent_bind; [apply Hf |]. intros y.
  apply silent_bind; [exact IH |]. intros ys. apply silent_ret.
Qed.

Lemma silent_foldM {A B} (f : A -> B -> M A) (l : list B) (a : A) :
  (forall a b, silent (f a b)) -> silent (foldM f l a).
Proof.
  intros Hf. revert a. induction l as [| x l IH]; intros a; simpl; [apply silent_ret |].
  apply silent_bind; [apply Hf | exact IH].
Qed.

Lemma silent_setitem_mask {A B} (upd : A -> B -> A) cur m (v : list B) :
  silent (np.setitem_mask upd cur m v).
Proof.
  unfold np.setitem_mask. apply silent_bind; [| intros; apply silent_ret].
  unfold np.broadcast. destruct (length v =? count_true m); [apply silent_ret |].
  destruct v as [| x [| y v]]; reflexivity.
Qed.

Lemma silent_setitem_mask_channel rows m (i : nat) (v : list Q) :
  silent (np.setitem_mask_channel rows m i v).
Proof.
  unfold np.setitem_mask_channel. apply silent_bind.
  - unfold np.broadcast. destruct (length v =? count_true m); [apply silent_ret |].
    destruct v as [| x [| y v]]; reflexivity.
  - intros v'. destruct ((3 <=? i) && negb (count_true m =? 0)); reflexivity.
Qed.

Lemma silent_py_max {A} (l : list A) (key : A -> Q) : silent (py_max l key).
Proof. destruct l; reflexivity. Qed.

Lemma silent_one_dim {A} (a : ndarray A) : silent (one_dim a).
Proof. unfold one_dim. destruct (shape a) as [| n [| n' s]]; reflexivity. Qed.

Create HintDb silent.

#[local] Hint Resolve silent_setitem_mask_channel : silent.

#[local] Hint Resolve silent_ret silent_raise silent_getitem silent_setitem_mask
  silent_py_max silent_one_dim : silent.

(** ** The inclusion mask *)

Lemma gt0_nth (a : ndarray Q) (p : nat) :
  nth p (data (np.gt0 a)) false = true <-> (0 < nth p (data a) 0)%Q.
Proof.
  unfold np.gt0. simpl data.
  change false with ((fun x => Qlt_bool 0 x) 0%Q). rewrite map_nth.
  apply Qlt_bool_iff.
Qed.

Section InclusionMask.

Variable cmeans :
  list (list Q) -> nat -> Q -> Q -> nat -> exn + (list Q * list (list Q)).
Variable GaussianMixture_fit : nat -> list Q -> exn + GaussianMixture.

Lemma fcm_trace img bm hard_seg :
  same_shape img bm -> wf img -> masked_vector img bm <> [] ->
  trace (fcm_class_mask cmeans img bm hard_seg) =
    [cmeans_call [masked_vector img bm] 3 2%Q (5 # 1000)%Q 50].
Proof.
  intros Hs Hw He. unfold fcm_class_mask.
  rewrite (getitem_mask_same _ (mask_data _ _))
    by (try apply mask_data_shape; try apply mask_data_length; assumption).
  rewrite (getitem_mask_same (mask_data _ _) (mask_data _ _)) by reflexivity.
  rewrite !bind_ret, len_cons, bind_ret. fold (masked_vector img bm).
  rewrite <- (masked_vector_length img bm Hs Hw).
  rewrite reshape_rows_vector, bind_ret by (now destruct (masked_vector img bm)).
  unfold run_cmeans. apply trace_bind_call. intros [cntr mem].
  apply silent_bind; [auto with silent |]. intros _.
  apply silent_bind; [apply silent_mapM; intros [i c]; auto with silent |]. intros L.
  apply silent_bind.
  - apply silent_foldM. intros rows i. apply silent_bind; auto with silent.
  - intros rows. destruct hard_seg; [| auto with silent].
    apply silent_bind; auto with silent.
Qed.

Lemma gmm_trace img bm contrast return_wm_peak hard_seg :
  same_shape img bm -> wf img ->
  trace (gmm_class_mask GaussianMixture_fit img bm contrast return_wm_peak hard_seg) =
    [GaussianMixture_fit_call 3 (masked_vector img bm)].
Proof.
  intros Hs Hw. unfold gmm_class_mask.
  rewrite (getitem_mask_same _ (mask_data _ _))
    by (try apply mask_data_shape; try apply mask_data_length; assumption).
  rewrite bind_ret. simpl data. fold (masked_vector img bm).
  unfold run_fit. apply trace_bind_call. intros g.
  destruct return_wm_peak.
  - apply silent_bind; [| auto with silent].
    destruct (String.eqb contrast "t1"); [auto with silent |].
    apply silent_bind; auto with silent.
  - apply silent_bind; [auto with silent |]. intros _.
    destruct hard_seg.
    + apply silent_bind; auto with silent.
    + apply silent_bind; [| auto with silent].
      apply silent_foldM. intros rows [i c].
      apply silent_bind; [| auto with silent].
      apply silent_mapM. auto with silent.
Qed.

(** C4. In both engines the inclusion mask has the shape of the image
    and is true exactly where the brain mask, when one is supplied, is
    greater than 0, and exactly where the image is greater than 0
    otherwise; the intensities each engine hands to its fitting routine
    are those of the image at the true positions of this mask. *)
Theorem inclusion_mask_rule img bm contrast return_wm_peak hard_seg :
  same_shape img bm -> wf img ->
  let m := mask_data img bm in
  shape m = shape img /\
  (forall p, nth p (data m) false = true <->
             (0 < nth p (data (match bm with Some b => b | None => img end)) 0)%Q) /\
  (select (data m) (data img) <> [] ->
   trace (fcm_class_mask cmeans img bm hard_seg) =
     [cmeans_call [select (data m) (data img)] 3 2%Q (5 # 1000)%Q 50]) /\
  trace (gmm_class_mask GaussianMixture_fit img bm contrast return_wm_peak hard_seg) =
    [GaussianMixture_fit_call 3 (select (data m) (data img))].
Proof.
  intros Hs Hw m. split; [now apply mask_data_shape |]. split; [| split].
  - intros p. unfold m. destruct bm as [b |]; apply gt0_nth.
  - intros He. now apply fcm_trace.
  - now apply gmm_trace.
Qed.

End InclusionMask.

(** ** Hard segmentations label exactly the included voxels *)

Lemma setitem_mask_Ok {A B} (upd : A -> B -> A) cur m (v : list B) t r :
  np.setitem_mask upd cur m v = (t, Ok r) ->
  exists v', r = scatter upd m cur v' /\ length v' = count_true m /\
             forall x, In x v' -> In x v.
Proof.
  unfold np.setitem_mask, np.broadcast.
  destruct (Nat.eqb_spec (length v) (count_true m)) as [E | N].
  - rewrite bind_ret. intros H. injection H as _ <-. exists v. auto.
  - destruct v as [| x [| y v]]; try discriminate.
    rewrite bind_ret. intros H. injection H as _ <-.
    exists (repeat x (count_true m)). split; [reflexivity |].
    split; [apply repeat_length |].
    intros z Hz. apply repeat_spec in Hz. subst. now left.
Qed.

Lemma count_nonzero_scatter (m : list bool) (n : nat) (v : list Q) :
  length m = n -> length v = count_true m -> (forall x, In x v -> ~ (x == 0)%Q) ->
  count_nonzero (scatter (fun _ x => x) m (repeat 0%Q n) v) = count_true m.
Proof.
  unfold count_nonzero, count_true.
  revert n v. induction m as [| b m IH]; intros n v Hn Hv Hx.
  - simpl in Hn. subst n. reflexivity.
  - destruct n as [| n]; [discriminate |]. injection Hn as Hn.
    simpl repeat. simpl scatter. destruct b; simpl in Hv.
    + destruct v as [| x v]; [discriminate |]. injection Hv as Hv.
      simpl. destruct (Qeq_bool x 0) eqn:E.
      * apply Qeq_bool_iff in E. exfalso. apply (Hx x); [now left | exact E].
      * simpl. f_equal. apply IH; auto. intros y Hy. apply Hx. now right.
    + simpl. apply IH; auto.
Qed.

Lemma winner_nonzero (r : list Q) : ~ (winner r == 0)%Q.
Proof.
  unfold winner, Qeq. simpl. lia.
Qed.

Lemma relabel_nonneg (l : list (nat * nat)) (t : nat) (v : Q) :
  (0 <= v)%Q ->
  (0 <= fold_left (fun v '(i, c) => if t =? c then (inject_Z (Z.of_nat i) + 1)%Q else v) l v)%Q.
Proof.
  revert v. induction l as [| [i c] l IH]; intros v Hv; simpl; [exact Hv |].
  apply IH. destruct (t =? c); [| exact Hv].
  assert (0 <= inject_Z (Z.of_nat i))%Q by (unfold Qle; simpl; lia). lra.
Qed.

Ltac inv_bind H a E :=
  apply bind_Ok_inv in H; destruct H as (? & a & ? & E & H & ?).

Lemma hard_mask_labels_exactly (img : ndarray Q) (m : list bool) (v : list Q) :
  length m = size_of (shape img) -> length v = count_true m ->
  (forall x, In x v -> ~ (x == 0)%Q) ->
  labels_exactly m (hard_mask img m v).
Proof.
  intros Hm Hv Hx. split.
  - unfold hard_mask. simpl data. now apply count_nonzero_scatter.
  - intros p Hp. rewrite hard_mask_nth by assumption.
    split; intros E; rewrite E; [| reflexivity].
    apply Hx, nth_In. rewrite Hv. now apply rank_lt.
Qed.

Section HardSegmentation.

Variable cmeans :
  list (list Q) -> nat -> Q -> Q -> nat -> exn + (list Q * list (list Q)).
Variable GaussianMixture_fit : nat -> list Q -> exn + GaussianMixture.

Lemma fcm_hard_Ok img bm t out :
  same_shape img bm -> wf img ->
  fcm_class_mask cmeans img bm true = (t, Ok out) ->
  exists v, out = hard_mask img (data (mask_data img bm)) v /\
    length v = count_true (data (mask_data img bm)) /\
    forall x, In x v -> ~ (x == 0)%Q.
Proof.
  intros Hs Hw H. unfold fcm_class_mask in H.
  rewrite (getitem_mask_same _ (mask_data _ _)) in H
    by (try apply mask_data_shape; try apply mask_data_length; assumption).
  rewrite (getitem_mask_same (mask_data _ _) (mask_data _ _)) in H by reflexivity.
  rewrite !bind_ret, len_cons, bind_ret in H.
  inv_bind H d Ed. inv_bind H fit Ef. destruct fit as [cntr mem].
  inv_bind H u Eu. inv_bind H L EL. inv_bind H rows Er. inv_bind H tmp Et.
  injection H as _ <-.
  destruct (setitem_mask_Ok _ _ _ _ _ _ Et) as (v & -> & Hv & Hin).
  exists v. split; [reflexivity |]. split; [exact Hv |].
  intros q Hq. apply Hin in Hq. apply in_map_iff in Hq. destruct Hq as (r & <- & _).
  apply winner_nonzero.
Qed.

Lemma gmm_hard_Ok img bm contrast t out :
  same_shape img bm -> wf img ->
  gmm_class_mask GaussianMixture_fit img bm contrast false true = (t, Ok (mask_of out)) ->
  exists v, out = hard_mask img (data (mask_data img bm)) v /\
    length v = count_true (data (mask_data img bm)) /\
    forall x, In x v -> ~ (x == 0)%Q.
Proof.
  intros Hs Hw H. unfold gmm_class_mask in H.
  rewrite (getitem_mask_same _ (mask_data _ _)) in H
    by (try apply mask_data_shape; try apply mask_data_length; assumption).
  rewrite bind_ret in H.
  inv_bind H g Eg. inv_bind H u Eu. inv_bind H tmp Et.
  injection H as _ <-.
  destruct (setitem_mask_Ok _ _ _ _ _ _ Et) as (v & -> & Hv & Hin).
  exists v. split; [reflexivity |]. split; [exact Hv |].
  intros q Hq. apply Hin in Hq. apply in_map_iff in Hq. destruct Hq as (y & <- & Hy).
  rewrite repeat_map, relabel_loop in Hy. apply in_map_iff in Hy.
  destruct Hy as (lbl & <- & _).
  pose proof (relabel_nonneg (enumerate (np.argsort (weights_ g))) lbl 0%Q ltac:(lra)).
  lra.
Qed.

(** C7. For every image and inclusion mask of its shape, whenever an
    engine returns a hard segmentation, the number of its nonzero voxels
    is the number of true voxels of the inclusion mask: every included
    voxel holds a nonzero label and every excluded voxel holds 0. *)
Theorem hard_seg_labels_included_voxels img bm contrast :
  same_shape img bm -> wf img ->
  let m := data (mask_data img bm) in
  (forall t out, fcm_class_mask cmeans img bm true = (t, Ok out) ->
                 labels_exactly m out) /\
  (forall t out,
      gmm_class_mask GaussianMixture_fit img bm contrast false true =
        (t, Ok (mask_of out)) ->
      labels_exactly m out).
Proof.
  intros Hs Hw m.
  assert (length m = size_of (shape img)) as Hm
      by (unfold m; rewrite (mask_data_length img bm Hs Hw); exact Hw).
  split; intros t out H.
  - destruct (fcm_hard_Ok img bm t out Hs Hw H) as (v & -> & Hv & Hx).
    now apply hard_mask_labels_exactly.
  - destruct (gmm_hard_Ok img bm contrast t out Hs Hw H) as (v & -> & Hv & Hx).
    now apply hard_mask_labels_exactly.
Qed.

End HardSegmentation.

(** ** Soft masks partition the included voxels *)

Lemma Qsum_perm (l l' : list Q) : Permutation l l' -> (Qsum l == Qsum l')%Q.
Proof.
  induction 1 as [| x l l' HP IH | x y l | l l' l'' H1 IH1 H2 IH2]; simpl.
  - reflexivity.
  - now rewrite IH.
  - lra.
  - now rewrite IH1.
Qed.

Lemma map_nth_seq {A} (l : list A) (d : A) :
  map (fun i => nth i l d) (seq 0 (length l)) = l.
Proof.
  induction l as [| x l IH]; simpl; [reflexivity |].
  f_equal. rewrite <- seq_shift, map_map. exact IH.
Qed.

Lemma soft_class_value (s : list nat) (m : list bool) (L0 L1 L2 : list Q) (p i : nat) :
  length m = size_of s ->
  length L0 = count_true m -> length L1 = count_true m -> length L2 = count_true m ->
  p < length m -> i < 3 ->
  class_value (np.of_rows s (class_rows m (size_of s) [L0; L1; L2])) p i =
    if nth p m false then nth (rank m p) (nth i [L0; L1; L2] []) 0%Q else 0%Q.
Proof.
  intros Hm H0 H1 H2 Hp Hi.
  rewrite of_rows_class_value by (try apply class_rows_width; assumption).
  rewrite class_rows_nth by (try assumption; lia).
  destruct (nth p m false); destruct i as [| [| [| i]]]; try lia; reflexivity.
Qed.

Section SoftMasks.

Variable cmeans :
  list (list Q) -> nat -> Q -> Q -> nat -> exn + (list Q * list (list Q)).
Variable GaussianMixture_fit : nat -> list Q -> exn + GaussianMixture.

(** C8. When the memberships that [cmeans] fits sum to 1 at every
    sample, the soft mask of [fcm_class_mask] sums to 1 over its 3
    classes at every included voxel; when the posterior probabilities of
    the fitted mixture sum to 1 at every sample, so does the soft mask of
    [gmm_class_mask]. At every excluded voxel the 3 class values of
    either mask are 0. *)
Theorem soft_mask_sums_to_one img bm contrast :
  same_shape img bm -> wf img ->
  let m := data (mask_data img bm) in
  let X := masked_vector img bm in
  (forall cntr mem,
      X <> [] ->
      cmeans [X] 3 2%Q (5 # 1000)%Q 50 = inr (cntr, mem) ->
      cmeans_contract (length X) (cntr, mem) ->
      (forall j, j < length X -> (Qsum (map (fun r => nth j r 0) mem) == 1)%Q) ->
      exists soft,
        outcome (fcm_class_mask cmeans img bm false) = Ok soft /\
        partition_at m soft) /\
  (forall g,
      GaussianMixture_fit 3 X = inr g ->
      gmm_contract X g ->
      (forall row, In row (predict_proba g X) -> (Qsum row == 1)%Q) ->
      exists soft,
        outcome (gmm_class_mask GaussianMixture_fit img bm contrast false false) =
          Ok (mask_of soft) /\
        partition_at m soft).
Proof.
  intros Hs Hw m X.
  pose proof (masked_vector_length img bm Hs Hw) as Hv. fold m X in Hv.
  assert (length m = size_of (shape img)) as Hm
      by (unfold m; rewrite (mask_data_length img bm Hs Hw); exact Hw).
  split.
  - intros cntr mem He Hc Hk Hsum.
    eexists. split; [unfold X in *; rewrite (fcm_fitted cmeans img bm false cntr mem)
                       by assumption; reflexivity |].
    destruct (ordered_rows_contract _ _ _ Hk) as (L0 & L1 & L2 & E & E0 & E1 & E2).
    rewrite Hv in E0, E1, E2.
    unfold fcm_output. fold m. rewrite E.
    intros p Hp. rewrite !soft_class_value by (try assumption; lia).
    destruct (nth p m false) eqn:Hin; [| intros i Hi;
      rewrite soft_class_value, Hin by (try assumption; lia); reflexivity].
    cbn [nth].
    assert (rank m p < length X) as Hr by (rewrite Hv; now apply rank_lt).
    rewrite <- (Hsum (rank m p) Hr).
    destruct Hk as (K1 & K2 & _). simpl in K1, K2.
    assert (Permutation [L0; L1; L2] mem) as HP.
    { rewrite <- E. unfold ordered_rows.
      rewrite (argsort_perm cntr), K1, <- K2. now rewrite map_nth_seq. }
    rewrite <- (Qsum_perm _ _ (Permutation_map (fun r => nth (rank m p) r 0%Q) HP)).
    simpl. lra.
  - intros g Hf Hg Hsum.
    eexists. split; [unfold X in *;
                     rewrite (gmm_fitted_mask GaussianMixture_fit img bm contrast false g)
                       by assumption; reflexivity |].
    destruct Hg as (H1 & H2 & H3 & H4 & H5 & H6).
    assert (Permutation (np.argsort (weights_ g)) (seq 0 3)) as HP
        by (rewrite <- H1; apply argsort_perm).
    destruct (length_eq_3 _ (Permutation_length HP)) as (c0 & c1 & c2 & E).
    unfold gmm_output. fold m X. rewrite E. cbn [map].
    assert (forall c, length (column (predict_proba g X) c) = count_true m) as Hcol
        by (intros; unfold column; rewrite length_map; congruence).
    intros p Hp. rewrite !soft_class_value by (try apply Hcol; try assumption; lia).
    destruct (nth p m false) eqn:Hin; [| intros i Hi;
      rewrite soft_class_value, Hin by (try apply Hcol; try assumption; lia);
      reflexivity].
    cbn [nth].
    assert (rank m p < length (predict_proba g X)) as Hr
        by (rewrite H5, Hv; now apply rank_lt).
    unfold column. rewrite !(nth_map_lt _ _ _ []) by exact Hr.
    set (row := nth (rank m p) (predict_proba g X) []).
    assert (In row (predict_proba g X)) as Hrow by (apply nth_In, Hr).
    rewrite <- (Hsum row Hrow).
    rewrite <- (map_nth_seq row 0%Q) at 4. rewrite (H6 row Hrow).
    rewrite <- (Qsum_perm _ _ (Permutation_map (fun c => nth c row 0%Q) HP)).
    rewrite E. simpl. lra.
Qed.

End SoftMasks.

(** ** Empty inclusion masks and mismatched shapes *)

Lemma select_all_false {A} (m : list bool) (xs : list A) :
  (forall p, nth p m false = false) -> select m xs = [].
Proof.
  revert xs. induction m as [| b m IH]; intros xs H; [reflexivity |].
  destruct xs as [| x xs]; [reflexivity |]. simpl.
  rewrite (H 0 : b = false). apply IH. intros p. exact (H (S p)).
Qed.

(** Shapes of the same number of axes that differ clash as soon as the
    boolean index has no axis of length 0. *)
Lemma same_rank_clash (p s : list nat) :
  length p = length s -> p <> s -> ~ In 0 p -> axes_clash p s.
Proof.
  revert s. induction p as [| x p IH]; intros [| y s] Hl Hn H0; simpl in Hl;
    try discriminate; [congruence |].
  injection Hl as Hl. right.
  destruct (Nat.eq_dec x y) as [-> | N].
  - destruct (IH s Hl) as [Hlt | (j & Hj & Hj0 & Hjd)].
    + congruence.
    + intros Hin. apply H0. now right.
    + lia.
    + exists (S j). simpl. repeat split; auto. lia.
  - exists 0. simpl. repeat split; [lia | | exact N].
    intros ->. apply H0. now left.
Qed.

Lemma size_of_zero (s : list nat) : In 0 s -> size_of s = 0.
Proof.
  induction s as [| x s IH]; intros H0; [destruct H0 |]. simpl.
  destruct H0 as [-> | H0]; [reflexivity |]. rewrite (IH H0). lia.
Qed.

Lemma zero_axis_empty {A} (a : ndarray A) : wf a -> In 0 (shape a) -> data a = [].
Proof.
  unfold wf. intros Hw H0. rewrite (size_of_zero _ H0) in Hw.
  now apply length_zero_iff_nil.
Qed.

Section Failures.

Variable cmeans :
  list (list Q) -> nat -> Q -> Q -> nat -> exn + (list Q * list (list Q)).
Variable GaussianMixture_fit : nat -> list Q -> exn + GaussianMixture.

(** C5, as the code has it. For an image whose inclusion mask is
    all-false, [fcm_class_mask] raises numpy's [ValueError] (the reshape
    of an empty vector) before [cmeans] is invoked, and [gmm_class_mask]
    hands the empty intensity vector to the mixture fitter, whose
    exception, if any, it propagates. *)
Theorem empty_mask_outcome img bm contrast return_wm_peak hard_seg :
  same_shape img bm -> wf img ->
  (forall p, nth p (data (mask_data img bm)) false = false) ->
  fcm_class_mask cmeans img bm hard_seg = ([], Raise ValueError) /\
  trace (gmm_class_mask GaussianMixture_fit img bm contrast return_wm_peak hard_seg) =
    [GaussianMixture_fit_call 3 []] /\
  (forall e, GaussianMixture_fit 3 [] = inl e ->
             outcome (gmm_class_mask GaussianMixture_fit img bm contrast
                                     return_wm_peak hard_seg) = Raise e).
Proof.
  intros Hs Hw Hall.
  assert (masked_vector img bm = []) as He by (now apply select_all_false).
  split; [now apply fcm_empty |]. split.
  - rewrite <- He. now apply gmm_trace.
  - intros e Hf. rewrite <- He in Hf.
    now rewrite (gmm_fit_raises GaussianMixture_fit img bm contrast return_wm_peak
                   hard_seg e Hs Hw Hf).
Qed.

(** A brain mask with an axis of length 0 that numpy accepts on the
    image selects nothing, whatever the two shapes: [fcm_class_mask] fails
    in the reshape of the empty vector, and [gmm_class_mask] hands the
    empty vector to the fitter. *)
Lemma zero_axis_mask_selects_nothing img b rest contrast return_wm_peak hard_seg e :
  wf b -> In 0 (shape b) -> match_axes (shape b) (shape img) = Some rest ->
  fcm_class_mask cmeans img (Some b) hard_seg = ([], Raise ValueError) /\
  (GaussianMixture_fit 3 [] = inl e ->
   gmm_class_mask GaussianMixture_fit img (Some b) contrast return_wm_peak hard_seg =
     ([GaussianMixture_fit_call 3 []], Raise e)).
Proof.
  intros Hw H0 Hm.
  assert (data (np.gt0 b) = []) as Ed
      by (unfold np.gt0; simpl; now rewrite (zero_axis_empty b Hw H0)).
  assert (np.getitem_mask img (np.gt0 b) = ret (mk_ndarray (0 :: rest) [])) as E
      by (unfold np.getitem_mask; simpl shape; now rewrite Hm, Ed).
  assert (np.getitem_mask (np.gt0 b) (np.gt0 b) = ret (mk_ndarray [0] [])) as E'
      by (unfold np.getitem_mask; now rewrite match_axes_refl, Ed).
  unfold fcm_class_mask, gmm_class_mask. cbn [mask_data]. rewrite E, E'. split.
  - reflexivity.
  - intros Hf. rewrite bind_ret. simpl data. unfold run_fit. now rewrite Hf.
Qed.

(** C6, as the code has it. For an image and a supplied brain mask that
    has more axes than the image, or an axis of length other than 0 that
    differs from the corresponding axis of the image (as whenever the two
    shapes differ, have the same number of axes and the mask has no axis
    of length 0), both engines raise numpy's [IndexError], from the
    boolean indexing that extracts the masked intensity vector, and
    invoke no fitting routine. *)
Theorem shape_mismatch_outcome img b contrast return_wm_peak hard_seg :
  axes_clash (shape b) (shape img) ->
  fcm_class_mask cmeans img (Some b) hard_seg = ([], Raise IndexError) /\
  gmm_class_mask GaussianMixture_fit img (Some b) contrast return_wm_peak hard_seg =
    ([], Raise IndexError).
Proof.
  intros Hn.
  assert (np.getitem_mask img (mask_data img (Some b)) = raise IndexError) as E
      by (unfold np.getitem_mask; simpl shape; now rewrite (match_axes_clash _ _ Hn)).
  unfold fcm_class_mask, gmm_class_mask. rewrite E. split; reflexivity.
Qed.

End Failures.

(** A mask of shape (0,) on an image of 2 voxels is not refused: it
    selects nothing. *)
Lemma empty_axis_mask_on_two_voxels :
  fcm_class_mask sample_cmeans two_voxels (Some empty_axis_mask) false =
    ([], Raise ValueError) /\
  gmm_class_mask (sample_fit sample_gmm) two_voxels (Some empty_axis_mask) "t1" true false =
    ([GaussianMixture_fit_call 3 []], Raise ValueError).
Proof. split; reflexivity. Qed.

(** C5 against the code: an all-background image makes [fcm_class_mask]
    raise [ValueError], not [EmptyMaskError], and makes [gmm_class_mask]
    call the fitter on the empty vector. *)
Lemma empty_mask_not_rejected :
  (forall p, nth p (data (mask_data blank_img None)) false = false) /\
  fcm_class_mask sample_cmeans blank_img None false = ([], Raise ValueError) /\
  gmm_class_mask (sample_fit sample_gmm) blank_img None "t1" true false =
    ([GaussianMixture_fit_call 3 []], Raise ValueError) /\
  outcome (fcm_class_mask sample_cmeans blank_img None false) <> Raise EmptyMaskError /\
  trace (gmm_class_mask (sample_fit sample_gmm) blank_img None "t1" true false) <> [].
Proof.
  split; [intros [| [| [| p]]]; reflexivity |].
  repeat split; try reflexivity; discriminate.
Qed.

(** C6 against the code: with a mask of 3 voxels on an image of 2 both
    engines raise [IndexError], not [ShapeMismatch]; with a mask over the
    rows of a 2 x 2 image, [gmm_class_mask] fits the selected rows and
    returns the peak. *)
Lemma shape_mismatch_not_rejected :
  shape long_mask <> shape two_voxels /\
  fcm_class_mask sample_cmeans two_voxels (Some long_mask) false =
    ([], Raise IndexError) /\
  gmm_class_mask (sample_fit sample_gmm) two_voxels (Some long_mask) "t1" true false =
    ([], Raise IndexError) /\
  IndexError <> ShapeMismatch /\
  shape row_mask <> shape sample_img /\
  gmm_class_mask (sample_fit sample_gmm) sample_img (Some row_mask) "t1" true false =
    ([GaussianMixture_fit_call 3 [10; 0; 30; 20]%Q], Ok (wm_peak_of 30)).
Proof.
  repeat split; try reflexivity; discriminate.
Qed.

(** ** The class order does not depend on the raw component order *)

Lemma enumerate_seq {A} (l : list A) (d : A) :
  enumerate l = map (fun i => (i, nth i l d)) (seq 0 (length l)).
Proof.
  unfold enumerate.
  assert (forall n, combine (seq n (length l)) l =
                    map (fun i => (i, nth (i - n) l d)) (seq n (length l))) as G.
  { induction l as [| x l IH]; intros n; simpl; [reflexivity |].
    rewrite Nat.sub_diag. f_equal. rewrite IH. apply map_ext_in.
    intros i Hi. apply in_seq in Hi. replace (i - n) with (S (i - S n)) by lia.
    reflexivity. }
  rewrite G. apply map_ext. intros i. now rewrite Nat.sub_0_r.
Qed.

Lemma enumerate_map {A B} (f : A -> B) (l : list A) :
  enumerate (map f l) = map (fun p => (fst p, f (snd p))) (enumerate l).
Proof.
  unfold enumerate. rewrite length_map. generalize 0.
  induction l as [| x l IH]; intros n; simpl; [reflexivity | now rewrite IH].
Qed.

Lemma enumerate_combine {A B} (l : list A) (l' : list B) :
  length l = length l' ->
  enumerate l = map (fun t => (fst t, fst (snd t))) (enumerate (combine l l')).
Proof.
  unfold enumerate. rewrite length_combine. intros H. rewrite <- H, Nat.min_id.
  generalize 0. revert l' H.
  induction l as [| x l IH]; intros [| y l'] H n; simpl; try discriminate; [reflexivity |].
  injection H as H. now rewrite (IH l' H).
Qed.

(** Sorting the centers with their indices and fetching the rows is
    sorting the (center, row) pairs. *)
Lemma rows_by_center (cntr : list Q) (mem : list (list Q)) :
  length cntr = length mem ->
  map (fun j => nth (fst j) mem []) (sorted (enumerate cntr) snd) =
  map snd (sorted (combine cntr mem) fst).
Proof.
  intros H.
  rewrite (enumerate_combine cntr mem H), sorted_map.
  rewrite <- (enumerate_snd (combine cntr mem)) at 2. rewrite sorted_map.
  rewrite !map_map. cbn [fst snd].
  apply map_ext_in. intros [i [c r]] Hin. cbn [fst snd].
  apply (Permutation_in _ (sorted_perm _ _)) in Hin.
  destruct (enumerate_In _ _ _ (0%Q, []) Hin) as [_ Hn].
  rewrite combine_nth in Hn by assumption. now injection Hn.
Qed.

Lemma distinct_pairs (cntr : list Q) (mem : list (list Q)) :
  length cntr = length mem -> pairwise_distinct cntr ->
  distinct_keys fst (combine cntr mem).
Proof.
  intros H HD x y Hx Hy Hk.
  destruct (In_nth _ _ (0%Q, []) Hx) as (i & Hi & <-).
  destruct (In_nth _ _ (0%Q, []) Hy) as (j & Hj & <-).
  rewrite length_combine, <- H, Nat.min_id in Hi, Hj.
  rewrite !combine_nth in Hk |- * by assumption. simpl in Hk.
  now rewrite (HD i j Hi Hj Hk).
Qed.

Lemma distinct_weights_enumerate (w : list Q) :
  pairwise_distinct w -> distinct_keys snd (enumerate w).
Proof.
  intros HD [i x] [j y] Hx Hy Hk. simpl in Hk.
  destruct (enumerate_In _ _ _ 0%Q Hx) as [Hi <-].
  destruct (enumerate_In _ _ _ 0%Q Hy) as [Hj <-].
  now rewrite (HD i j Hi Hj Hk).
Qed.

(** Permuting the weights permutes their class order accordingly. *)
Lemma argsort_permuted (w : list Q) (sigma : list nat) :
  Permutation sigma (seq 0 (length w)) -> pairwise_distinct w ->
  map (fun c => nth c sigma 0) (np.argsort (map (fun c => nth c w 0%Q) sigma)) =
  np.argsort w.
Proof.
  intros HP HD. unfold np.argsort.
  set (w2 := map (fun c => nth c w 0%Q) sigma).
  set (f := fun a : nat * Q => (nth (fst a) sigma 0, snd a)).
  assert (length sigma = length w) as Hl
      by (rewrite (Permutation_length HP); apply length_seq).
  assert (map f (enumerate w2) = map (fun c => (c, nth c w 0%Q)) sigma) as E.
  { rewrite (enumerate_seq w2 0%Q), map_map. unfold f, w2. cbn [fst snd].
    rewrite length_map.
    transitivity (map (fun c => (c, nth c w 0%Q))
                      (map (fun i => nth i sigma 0) (seq 0 (length sigma))));
      [| now rewrite map_nth_seq].
    rewrite map_map. apply map_ext_in. intros i Hi. apply in_seq in Hi.
    now rewrite (nth_map_lt _ _ _ 0) by lia. }
  assert (Permutation (enumerate w) (map f (enumerate w2))) as HPe.
  { rewrite E, (enumerate_seq w 0%Q). apply Permutation_map. now symmetry. }
  rewrite (sorted_order_irrelevant snd _ _ HPe (distinct_weights_enumerate w HD)).
  rewrite sorted_map, !map_map. reflexivity.
Qed.

Lemma relabel_map (f : nat -> nat) (cl : list nat) (t : nat) :
  (forall c, In c cl -> (f t =? f c) = (t =? c)) ->
  relabel (map f cl) (f t) = relabel cl t.
Proof.
  unfold relabel. rewrite enumerate_map. intros H.
  assert (forall p, In p (enumerate cl) -> (f t =? f (snd p)) = (t =? snd p)) as G.
  { intros [i c] Hp. apply H. destruct (enumerate_In _ _ _ 0 Hp) as [Hi <-].
    now apply nth_In. }
  revert G. generalize (enumerate cl) 0%Q. intros l.
  induction l as [| [i c] l IH]; intros v G; simpl; [reflexivity |].
  pose proof (G (i, c) (or_introl eq_refl)) as Gi. simpl in Gi. rewrite Gi. apply IH. intros p Hp. apply G. now right.
Qed.

Lemma column_permuted (rows : list (list Q)) (sigma : list nat) (c : nat) :
  c < length sigma ->
  column (map (fun row => map (fun c => nth c row 0%Q) sigma) rows) c =
  column rows (nth c sigma 0).
Proof.
  intros H. unfold column. rewrite map_map. apply map_ext. intros row.
  now apply (nth_map_lt (fun c => nth c row 0%Q)).
Qed.

Section RawOrder.

Variables cmeans1 cmeans2 :
  list (list Q) -> nat -> Q -> Q -> nat -> exn + (list Q * list (list Q)).
Variables fit1 fit2 : nat -> list Q -> exn + GaussianMixture.

Lemma ordered_rows_permuted (r1 r2 : list Q * list (list Q)) :
  permuted_clusters r1 r2 -> pairwise_distinct (fst r1) ->
  mapM (fun '(i, _) => getitem (snd r1) i) (sorted (enumerate (fst r1)) snd) =
  mapM (fun '(i, _) => getitem (snd r2) i) (sorted (enumerate (fst r2)) snd).
Proof.
  destruct r1 as [c1 m1], r2 as [c2 m2]. simpl. intros (H1 & H2 & HP) HD. simpl in *.
  assert (forall (c : list Q) (m : list (list Q)), length c = length m ->
            forall j, In j (sorted (enumerate c) snd) -> fst j < length m) as Hj.
  { intros c m Hl [i x] Hin. apply (Permutation_in _ (sorted_perm snd _)) in Hin.
    destruct (enumerate_In c i x 0%Q Hin). simpl. lia. }
  rewrite (mapM_getitem_fst m1 _ [] (Hj c1 m1 H1)).
  rewrite (mapM_getitem_fst m2 _ [] (Hj c2 m2 H2)).
  rewrite !rows_by_center by assumption.
  now rewrite (sorted_order_irrelevant fst _ _ HP (distinct_pairs c1 m1 H1 HD)).
Qed.

(** C9, as the code has it. When no two cluster centers are equal, two
    fits that differ only in the raw order of their clusters (the
    centers permuted together with the membership rows) give the same
    result of [fcm_class_mask]; when no two mixture weights are equal,
    two fitted mixtures that differ only in the raw order of their
    components (weights, means, labels and probability columns permuted
    together) give the same mask of [gmm_class_mask], hard or soft. *)
Theorem class_order_ignores_raw_order img bm contrast hard_seg :
  same_shape img bm -> wf img ->
  let X := masked_vector img bm in
  (forall r1 r2,
      cmeans1 [X] 3 2%Q (5 # 1000)%Q 50 = inr r1 ->
      cmeans2 [X] 3 2%Q (5 # 1000)%Q 50 = inr r2 ->
      permuted_clusters r1 r2 -> pairwise_distinct (fst r1) ->
      fcm_class_mask cmeans1 img bm hard_seg = fcm_class_mask cmeans2 img bm hard_seg) /\
  (forall g1 g2,
      fit1 3 X = inr g1 -> fit2 3 X = inr g2 ->
      gmm_contract X g1 -> gmm_contract X g2 ->
      permuted_model X g1 g2 -> pairwise_distinct (weights_ g1) ->
      gmm_class_mask fit1 img bm contrast false hard_seg =
      gmm_class_mask fit2 img bm contrast false hard_seg).
Proof.
  intros Hs Hw X. split.
  - intros r1 r2 E1 E2 HP HD.
    unfold fcm_class_mask.
    rewrite (getitem_mask_same _ (mask_data _ _))
      by (try apply mask_data_shape; try apply mask_data_length; assumption).
    rewrite (getitem_mask_same (mask_data _ _) (mask_data _ _)) by reflexivity.
    rewrite !bind_ret, len_cons, !bind_ret. fold (masked_vector img bm). fold X.
    rewrite <- (masked_vector_length img bm Hs Hw). fold X.
    destruct X as [| x X'] eqn:EX; [reflexivity |].
    rewrite <- EX in *.
    rewrite reshape_rows_vector, !bind_ret by (rewrite EX; discriminate).
    unfold run_cmeans. rewrite E1, E2, !bind_call.
    assert (forall K : list (list Q) -> M (ndarray Q),
               (let (t1_cntr, t1_mem) := r1 in
                _ <- one_dim (mk_ndarray [length X] X) ;;
                L <- mapM (fun '(i, _) => getitem t1_mem i)
                          (sorted (enumerate t1_cntr) snd) ;; K L) =
               (let (t1_cntr, t1_mem) := r2 in
                _ <- one_dim (mk_ndarray [length X] X) ;;
                L <- mapM (fun '(i, _) => getitem t1_mem i)
                          (sorted (enumerate t1_cntr) snd) ;; K L)) as G.
    { intros K. pose proof (ordered_rows_permuted r1 r2 HP HD) as HO.
      destruct r1 as [c1 m1], r2 as [c2 m2]. simpl in HO. now rewrite HO. }
    now rewrite G.
  - intros g1 g2 E1 E2 K1 K2 (sigma & HP & Ew & _ & Ep & Eq) HD.
    unfold X in *.
    rewrite (gmm_fitted_mask fit1 img bm contrast hard_seg g1) by assumption.
    rewrite (gmm_fitted_mask fit2 img bm contrast hard_seg g2) by assumption.
    do 3 f_equal. unfold gmm_output.
    pose proof K1 as (L1 & _). pose proof K2 as (_ & _ & _ & T2 & _).
    assert (length sigma = 3) as Hl
        by (rewrite (Permutation_length HP), length_seq; exact L1).
    assert (np.argsort (weights_ g1) =
            map (fun c => nth c sigma 0) (np.argsort (weights_ g2))) as Ec
        by (rewrite Ew; symmetry; now apply argsort_permuted).
    assert (NoDup sigma) as Hnd
        by (apply (Permutation_NoDup (Permutation_sym HP)), seq_NoDup).
    assert (forall c, In c (np.argsort (weights_ g2)) -> c < 3) as Hc.
    { intros c Hin. apply argsort_lt in Hin. rewrite Ew, length_map in Hin. lia. }
    destruct hard_seg.
    + f_equal. rewrite Ep, map_map. apply map_ext_in. intros t Ht. f_equal.
      rewrite Ec. apply (relabel_map (fun c => nth c sigma 0)). intros c Hin.
      specialize (T2 t Ht). specialize (Hc c Hin).
      destruct (Nat.eqb_spec t c) as [-> | N]; [apply Nat.eqb_refl |].
      apply Nat.eqb_neq. intros Heq. apply N.
      apply (proj1 (NoDup_nth sigma 0) Hnd); lia.
    + do 2 f_equal. rewrite Ec, Eq, map_map. apply map_ext_in. intros c Hin.
      symmetry. apply column_permuted. rewrite Hl. now apply Hc.
Qed.
End RawOrder.

(** C9 against the code: two clusters with equal centers keep their raw
    order, so swapping them in the fit swaps their classes in the mask. *)
Lemma raw_order_shows_through_ties :
  permuted_clusters ([1; 1; 3]%Q, [[1; 0]; [0; 1]; [0; 0]]%Q)
                    ([1; 1; 3]%Q, [[0; 1]; [1; 0]; [0; 0]]%Q) /\
  fcm_class_mask tied_cmeans_a two_voxels None false =
    ([cmeans_call [[10; 20]%Q] 3 2%Q (5 # 1000)%Q 50],
     Ok (mk_ndarray [2; 3] [1; 0; 0; 0; 1; 0]%Q)) /\
  fcm_class_mask tied_cmeans_b two_voxels None false =
    ([cmeans_call [[10; 20]%Q] 3 2%Q (5 # 1000)%Q 50],
     Ok (mk_ndarray [2; 3] [0; 1; 0; 1; 0; 0]%Q)) /\
  fcm_class_mask tied_cmeans_a two_voxels None false <>
  fcm_class_mask tied_cmeans_b two_voxels None false.
Proof.
  split; [| split; [reflexivity | split; [reflexivity | discriminate]]].
  split; [reflexivity |]. split; [reflexivity |]. simpl. apply perm_swap.
Qed.

(** ** The theorems at work on sample inputs *)

Lemma sample_same_shape : same_shape sample_img (Some sample_brain_mask).
Proof. split; reflexivity. Defined.

Lemma sample_gmm_contract : gmm_contract [10; 30; 20]%Q sample_gmm.
Proof.
  repeat split; try reflexivity.
  - intros t [<- | [<- | [<- | []]]]; simpl; lia.
  - intros row [<- | [<- | [<- | []]]]; reflexivity.
Defined.

Lemma gmm_hard_seg_labels_witness :
  same_shape sample_img (Some sample_brain_mask) /\ wf sample_img /\
  gmm_contract [10; 30; 20]%Q sample_gmm /\
  exists out,
    gmm_class_mask (sample_fit sample_gmm) sample_img (Some sample_brain_mask)
                   "t1" false true =
      ([GaussianMixture_fit_call 3 [10; 30; 20]%Q], Ok (mask_of out)) /\
    In (nth 0 (data out) 0%Q) [2; 3; 4]%Q /\ nth 1 (data out) 0%Q = 0%Q.
Proof.
  split; [exact sample_same_shape |]. split; [reflexivity |].
  split; [exact sample_gmm_contract |].
  destruct (gmm_hard_seg_labels (sample_fit sample_gmm) sample_img (Some sample_brain_mask)
              "t1" sample_gmm sample_same_shape eq_refl eq_refl sample_gmm_contract)
    as (_ & _ & out & Hrun & _ & Hp).
  exists out. split; [exact Hrun |]. split.
  - destruct (Hp 0 ltac:(simpl; lia)) as (r & _ & _ & _ & Hin). exact Hin.
  - exact (Hp 1 ltac:(simpl; lia)).
Defined.

Lemma sample_cmeans_contract :
  cmeans_contract 3
    ([5; 1; 3]%Q, [[1 # 10; 1 # 10; 1 # 10]; [7 # 10; 7 # 10; 7 # 10];
                   [2 # 10; 2 # 10; 2 # 10]]%Q).
Proof.
  repeat split. intros row [<- | [<- | [<- | []]]]; reflexivity.
Defined.

Lemma gmm_wm_peak_witness :
  same_shape sample_img (Some sample_brain_mask) /\ wf sample_img /\
  exists x,
    gmm_class_mask (sample_fit sample_gmm) sample_img (Some sample_brain_mask)
                   "t1" true false =
      ([GaussianMixture_fit_call 3 [10; 30; 20]%Q], Ok (wm_peak_of x)) /\
    In x [10; 30; 20]%Q /\ forall y, In y [10; 30; 20]%Q -> (y <= x)%Q.
Proof.
  split; [exact sample_same_shape |]. split; [reflexivity |].
  destruct (gmm_wm_peak (sample_fit sample_gmm) sample_img (Some sample_brain_mask)
              "t1" false sample_gmm sample_same_shape eq_refl eq_refl eq_refl eq_refl)
    as (x & Hrun & Ht1 & _).
  exists x. split; [exact Hrun |]. exact (Ht1 eq_refl).
Defined.

Lemma gmm_wm_peak_first_maximal_weight_witness :
  same_shape sample_img (Some sample_brain_mask) /\ wf sample_img /\
  "t2"%string <> "t1"%string /\
  exists j, j < 3 /\
    gmm_class_mask (sample_fit tied_gmm) sample_img (Some sample_brain_mask)
                   "t2" true false =
      ([GaussianMixture_fit_call 3 [10; 30; 20]%Q],
       Ok (wm_peak_of (nth j [10; 30; 20]%Q 0%Q))) /\
    (forall i, i < 3 -> (nth i [2 # 5; 2 # 5; 1 # 5] 0 <= nth j [2 # 5; 2 # 5; 1 # 5] 0)%Q) /\
    (forall i, i < j -> (nth i [2 # 5; 2 # 5; 1 # 5] 0 < nth j [2 # 5; 2 # 5; 1 # 5] 0)%Q).
Proof.
  split; [exact sample_same_shape |]. split; [reflexivity |].
  split; [discriminate |].
  exact (gmm_wm_peak_first_maximal_weight (sample_fit tied_gmm) sample_img
           (Some sample_brain_mask) "t2" false tied_gmm sample_same_shape eq_refl eq_refl
           eq_refl eq_refl ltac:(discriminate)).
Defined.

Lemma fcm_class_order_and_labels_witness :
  same_shape sample_img (Some sample_brain_mask) /\ wf sample_img /\
  masked_vector sample_img (Some sample_brain_mask) <> [] /\
  Permutation (np.argsort [5; 1; 3]%Q) [0; 1; 2] /\
  exists hard,
    outcome (fcm_class_mask sample_cmeans sample_img (Some sample_brain_mask) true) =
      Ok hard /\
    In (nth 0 (data hard) 0%Q) [1; 2; 3]%Q /\ nth 1 (data hard) 0%Q = 0%Q.
Proof.
  split; [exact sample_same_shape |]. split; [reflexivity |].
  split; [discriminate |].
  destruct (fcm_class_order_and_labels sample_cmeans sample_img (Some sample_brain_mask)
              _ _ sample_same_shape eq_refl ltac:(discriminate) eq_refl
              sample_cmeans_contract)
    as (HP & _ & _ & hard & Hrun & _ & Hp).
  split; [exact HP |]. exists hard. split; [exact Hrun |]. split.
  - destruct (Hp 0 ltac:(simpl; lia)) as (_ & Hin & _). exact Hin.
  - exact (Hp 1 ltac:(simpl; lia)).
Defined.

Lemma inclusion_mask_rule_witness :
  same_shape sample_img (Some sample_brain_mask) /\ wf sample_img /\
  shape (mask_data sample_img (Some sample_brain_mask)) = [2; 2] /\
  trace (fcm_class_mask sample_cmeans sample_img (Some sample_brain_mask) false) =
    [cmeans_call [[10; 30; 20]%Q] 3 2%Q (5 # 1000)%Q 50] /\
  trace (gmm_class_mask (sample_fit sample_gmm) sample_img (Some sample_brain_mask)
                        "t1" true false) =
    [GaussianMixture_fit_call 3 [10; 30; 20]%Q].
Proof.
  split; [exact sample_same_shape |]. split; [reflexivity |].
  destruct (inclusion_mask_rule sample_cmeans (sample_fit sample_gmm) sample_img
              (Some sample_brain_mask) "t1" true false sample_same_shape eq_refl)
    as (Hshape & _ & Hfcm & Hgmm).
  split; [exact Hshape |]. split; [| exact Hgmm].
  apply Hfcm. discriminate.
Defined.

Lemma blank_all_false : forall p, nth p (data (mask_data blank_img None)) false = false.
Proof. intros [| [| [| p]]]; reflexivity. Defined.

Lemma empty_mask_outcome_witness :
  same_shape blank_img None /\ wf blank_img /\
  (forall p, nth p (data (mask_data blank_img None)) false = false) /\
  fcm_class_mask sample_cmeans blank_img None true = ([], Raise ValueError) /\
  trace (gmm_class_mask (sample_fit sample_gmm) blank_img None "t1" false true) =
    [GaussianMixture_fit_call 3 []] /\
  outcome (gmm_class_mask (sample_fit sample_gmm) blank_img None "t1" false true) =
    Raise ValueError.
Proof.
  split; [exact I |]. split; [reflexivity |]. split; [exact blank_all_false |].
  destruct (empty_mask_outcome sample_cmeans (sample_fit sample_gmm) blank_img None
              "t1" false true I eq_refl blank_all_false) as (Hf & Ht & He).
  split; [exact Hf |]. split; [exact Ht |]. exact (He ValueError eq_refl).
Defined.

Lemma shape_mismatch_outcome_witness :
  axes_clash (shape long_mask) (shape two_voxels) /\
  fcm_class_mask sample_cmeans two_voxels (Some long_mask) false =
    ([], Raise IndexError) /\
  gmm_class_mask (sample_fit sample_gmm) two_voxels (Some long_mask) "t1" true false =
    ([], Raise IndexError).
Proof.
  assert (axes_clash (shape long_mask) (shape two_voxels)) as H
      by (apply same_rank_clash;
          [reflexivity | discriminate | intros [E | []]; discriminate E]).
  split; [exact H |].
  exact (shape_mismatch_outcome sample_cmeans (sample_fit sample_gmm) two_voxels
           long_mask "t1" true false H).
Defined.

Lemma hard_seg_labels_included_voxels_witness :
  same_shape sample_img (Some sample_brain_mask) /\ wf sample_img /\
  (exists t out,
      fcm_class_mask sample_cmeans sample_img (Some sample_brain_mask) true = (t, Ok out) /\
      labels_exactly [true; false; true; true] out) /\
  (exists t out,
      gmm_class_mask (sample_fit sample_gmm) sample_img (Some sample_brain_mask)
                     "t1" false true = (t, Ok (mask_of out)) /\
      labels_exactly [true; false; true; true] out).
Proof.
  split; [exact sample_same_shape |]. split; [reflexivity |].
  destruct (hard_seg_labels_included_voxels sample_cmeans (sample_fit sample_gmm)
              sample_img (Some sample_brain_mask) "t1" sample_same_shape eq_refl)
    as (Hf & Hg).
  split.
  - eexists. eexists. split; [reflexivity |]. apply (Hf _ _ eq_refl).
  - eexists. eexists. split; [reflexivity |]. apply (Hg _ _ eq_refl).
Defined.

Lemma soft_mask_sums_to_one_witness :
  same_shape sample_img (Some sample_brain_mask) /\ wf sample_img /\
  (exists soft,
      outcome (fcm_class_mask sample_cmeans sample_img (Some sample_brain_mask) false) =
        Ok soft /\
      partition_at [true; false; true; true] soft) /\
  (exists soft,
      outcome (gmm_class_mask (sample_fit sample_gmm) sample_img (Some sample_brain_mask)
                              "t1" false false) = Ok (mask_of soft) /\
      partition_at [true; false; true; true] soft).
Proof.
  split; [exact sample_same_shape |]. split; [reflexivity |].
  destruct (soft_mask_sums_to_one sample_cmeans (sample_fit sample_gmm) sample_img
              (Some sample_brain_mask) "t1" sample_same_shape eq_refl) as (Hf & Hg).
  split.
  - apply (Hf _ _ ltac:(discriminate) eq_refl sample_cmeans_contract).
    intros [| [| [| j]]] Hj; simpl in Hj; try lia; reflexivity.
  - apply (Hg _ eq_refl sample_gmm_contract).
    intros row [<- | [<- | [<- | []]]]; reflexivity.
Defined.

Lemma sample_weights_distinct : pairwise_distinct [5 # 10; 2 # 10; 3 # 10]%Q.
Proof.
  intros [| [| [| i]]] [| [| [| j]]] Hi Hj H; simpl in Hi, Hj; try lia;
    try reflexivity; discriminate H.
Defined.

Lemma sample_centers_distinct : pairwise_distinct [5; 1; 3]%Q.
Proof.
  intros [| [| [| i]]] [| [| [| j]]] Hi Hj H; simpl in Hi, Hj; try lia;
    try reflexivity; discriminate H.
Defined.

Lemma permuted_gmm_contract : gmm_contract [10; 30; 20]%Q permuted_gmm.
Proof.
  repeat split; try reflexivity.
  - intros t [<- | [<- | [<- | []]]]; simpl; lia.
  - intros row [<- | [<- | [<- | []]]]; reflexivity.
Defined.

Lemma sample_permuted_model : permuted_model [10; 30; 20]%Q sample_gmm permuted_gmm.
Proof.
  exists [2; 0; 1]. split; [apply (Permutation_cons_append [0; 1] 2) |].
  repeat split; reflexivity.
Defined.

Lemma class_order_ignores_raw_order_witness :
  same_shape sample_img (Some sample_brain_mask) /\ wf sample_img /\
  pairwise_distinct [5; 1; 3]%Q /\ pairwise_distinct [5 # 10; 2 # 10; 3 # 10]%Q /\
  permuted_model [10; 30; 20]%Q sample_gmm permuted_gmm /\
  fcm_class_mask sample_cmeans sample_img (Some sample_brain_mask) true =
  fcm_class_mask permuted_cmeans sample_img (Some sample_brain_mask) true /\
  gmm_class_mask (sample_fit sample_gmm) sample_img (Some sample_brain_mask)
                 "t1" false true =
  gmm_class_mask (sample_fit permuted_gmm) sample_img (Some sample_brain_mask)
                 "t1" false true.
Proof.
  split; [exact sample_same_shape |]. split; [reflexivity |].
  split; [exact sample_centers_distinct |]. split; [exact sample_weights_distinct |].
  split; [exact sample_permuted_model |].
  destruct (class_order_ignores_raw_order sample_cmeans permuted_cmeans
              (sample_fit sample_gmm) (sample_fit permuted_gmm) sample_img
              (Some sample_brain_mask) "t1" true sample_same_shape eq_refl) as (Hf & Hg).
  split.
  - apply (Hf _ _ eq_refl eq_refl); [| exact sample_centers_distinct].
    split; [reflexivity |]. split; [reflexivity |].
    symmetry. apply (Permutation_cons_append [_; _] _).
  - apply (Hg _ _ eq_refl eq_refl sample_gmm_contract permuted_gmm_contract
              sample_permuted_model sample_weights_distinct).
Defined.

(** * Further properties of the two engines *)

(** ** Shapes of the returned masks *)

Lemma size_of_app (s1 s2 : list nat) : size_of (s1 ++ s2) = size_of s1 * size_of s2.
Proof.
  induction s1 as [| x s1 IH]; simpl; [lia |]. rewrite IH. lia.
Qed.

Lemma concat_length_3 (rows : list (list Q)) :
  Forall (fun r => length r = 3) rows -> length (concat rows) = length rows * 3.
Proof.
  induction 1 as [| r rows Hr _ IH]; simpl; [reflexivity |].
  rewrite length_app, IH, Hr. lia.
Qed.

Lemma set_nth_length {A} (i : nat) (x : A) (l : list A) :
  length (set_nth i x l) = length l.
Proof.
  revert i. induction l as [| y l IH]; intros [| i]; simpl; auto.
Qed.

Lemma scatter_Forall {A B} (P : A -> Prop) (upd : A -> B -> A) m cur (v : list B) :
  (forall a x, P a -> P (upd a x)) -> Forall P cur -> Forall P (scatter upd m cur v).
Proof.
  intros Hupd. revert cur v.
  induction m as [| b m IH]; intros [| a cur] v H; simpl; auto.
  inversion H as [| ? ? Ha Hcur]; subst.
  destruct b; [destruct v |]; constructor; auto.
Qed.

Lemma foldM_invariant {A B} (P : A -> Prop) (f : A -> B -> M A) (l : list B) :
  (forall a b t r, P a -> f a b = (t, Ok r) -> P r) ->
  forall a t r, P a -> foldM f l a = (t, Ok r) -> P r.
Proof.
  intros Hf. induction l as [| b l IH]; intros a t r Ha; simpl.
  - intros H. now injection H as _ <-.
  - intros H. inv_bind H a' E. eapply IH; [| exact H]. eapply Hf; eauto.
Qed.

Lemma setitem_channel_well_shaped (n i : nat) rows m (v : list Q) t r :
  well_shaped n rows ->
  np.setitem_mask (fun r x => set_nth i x r) rows m v = (t, Ok r) ->
  well_shaped n r.
Proof.
  intros [Hl Hw] H. destruct (setitem_mask_Ok _ _ _ _ _ _ H) as (v' & -> & _).
  split; [now rewrite scatter_length |].
  apply scatter_Forall; [| exact Hw]. intros a x Ha. now rewrite set_nth_length.
Qed.

Lemma setitem_mask_channel_well_shaped (n i : nat) rows m (v : list Q) t r :
  well_shaped n rows ->
  np.setitem_mask_channel rows m i v = (t, Ok r) ->
  well_shaped n r.
Proof.
  intros [Hl Hw] H. unfold np.setitem_mask_channel in H.
  apply bind_Ok_inv in H. destruct H as (t1 & v' & t2 & _ & H & _).
  destruct ((3 <=? i) && negb (count_true m =? 0)); [discriminate |].
  injection H as _ <-.
  split; [now rewrite scatter_length |].
  apply scatter_Forall; [| exact Hw]. intros a x Ha. now rewrite set_nth_length.
Qed.

Lemma zeros3_well_shaped (s : list nat) : well_shaped (size_of s) (np.zeros3 s).
Proof.
  unfold np.zeros3. split; [apply repeat_length |].
  apply Forall_forall. intros r Hr. apply repeat_spec in Hr. now subst.
Qed.

Lemma of_rows_wf (s : list nat) (rows : list (list Q)) :
  well_shaped (size_of s) rows -> wf (np.of_rows s rows).
Proof.
  intros [Hl Hw]. unfold wf, np.of_rows. simpl.
  rewrite concat_length_3, size_of_app, Hl by assumption. simpl. lia.
Qed.

Lemma hard_mask_wf (img : ndarray Q) m v : wf (hard_mask img m v).
Proof. unfold wf, hard_mask. simpl. now rewrite scatter_length, repeat_length. Qed.

Section ReturnedMasks.

Variable cmeans :
  list (list Q) -> nat -> Q -> Q -> nat -> exn + (list Q * list (list Q)).
Variable GaussianMixture_fit : nat -> list Q -> exn + GaussianMixture.

(** Every successful run of [fcm_class_mask] went through one fit, one
    list of ordered rows and one array of class rows. *)
Lemma fcm_Ok_inv img bm hard_seg t out :
  same_shape img bm -> wf img ->
  fcm_class_mask cmeans img bm hard_seg = (t, Ok out) ->
  exists cntr mem L rows tL tR,
    cmeans [masked_vector img bm] 3 2%Q (5 # 1000)%Q 50 = inr (cntr, mem) /\
    mapM (fun '(i, _) => getitem mem i) (sorted (enumerate cntr) snd) = (tL, Ok L) /\
    foldM (fun mask i =>
             row <- getitem L i ;;
             np.setitem_mask (fun r x => set_nth i x r) mask
                             (data (mask_data img bm)) row)
          (seq 0 3) (np.zeros3 (shape img)) = (tR, Ok rows) /\
    well_shaped (size_of (shape img)) rows /\
    out = if hard_seg
          then hard_mask img (data (mask_data img bm))
                         (map winner (select (data (mask_data img bm)) rows))
          else np.of_rows (shape img) rows.
Proof.
  intros Hs Hw H.
  pose proof (masked_vector_length img bm Hs Hw) as Hk.
  unfold fcm_class_mask in H.
  rewrite (getitem_mask_same _ (mask_data _ _)) in H
    by (try apply mask_data_shape; try apply mask_data_length; assumption).
  rewrite (getitem_mask_same (mask_data _ _) (mask_data _ _)) in H by reflexivity.
  rewrite !bind_ret, len_cons, bind_ret in H. fold (masked_vector img bm) in H.
  rewrite <- Hk in H.
  destruct (masked_vector img bm) as [| x0 X'] eqn:EX; [discriminate |].
  rewrite <- EX in *.
  rewrite reshape_rows_vector, bind_ret in H by (rewrite EX; discriminate).
  inv_bind H fit Ef. destruct fit as [cntr mem].
  assert (cmeans [masked_vector img bm] 3 2%Q (5 # 1000)%Q 50 = inr (cntr, mem)) as Ec.
  { unfold run_cmeans in Ef. injection Ef as _ Ef.
    destruct (cmeans [masked_vector img bm] 3 2%Q (5 # 1000)%Q 50) as [e | r];
      [discriminate | now injection Ef as ->]. }
  rename H into Em. rewrite one_dim_vector, bind_ret in Em.
  inv_bind Em L EL. inv_bind Em rows ER.
  assert (well_shaped (size_of (shape img)) rows) as Hrows.
  { refine (foldM_invariant (well_shaped (size_of (shape img))) _ _ _ _ _ _
              (zeros3_well_shaped (shape img)) ER).
    intros a b ta ra Ha Hf. inv_bind Hf row Erow.
    eapply setitem_channel_well_shaped; eauto. }
  exists cntr, mem, L, rows. do 2 eexists.
  split; [exact Ec |]. split; [exact EL |]. split; [exact ER |].
  split; [exact Hrows |].
  destruct hard_seg.
  - inv_bind Em tmp Et. injection Em as _ <-.
    rewrite setitem_mask_exact in Et.
    + injection Et as _ <-. reflexivity.
    + rewrite length_map. apply select_length.
      destruct Hrows as [-> _]. rewrite (mask_data_length img bm Hs Hw). exact Hw.
  - now injection Em as _ <-.
Qed.

Lemma gmm_soft_Ok img bm contrast t out :
  same_shape img bm -> wf img ->
  gmm_class_mask GaussianMixture_fit img bm contrast false false = (t, Ok (mask_of out)) ->
  exists rows, well_shaped (size_of (shape img)) rows /\ out = np.of_rows (shape img) rows.
Proof.
  intros Hs Hw H. unfold gmm_class_mask in H.
  rewrite (getitem_mask_same _ (mask_data _ _)) in H
    by (try apply mask_data_shape; try apply mask_data_length; assumption).
  rewrite bind_ret in H.
  inv_bind H g Eg. inv_bind H u Eu. inv_bind H rows ER.
  injection H as _ <-. exists rows. split; [| reflexivity].
  apply (fun Hf => foldM_invariant (well_shaped (size_of (shape img))) _ _ Hf _ _ _
                      (zeros3_well_shaped (shape img)) ER).
  intros a [i c] ta ra Ha Hf. inv_bind Hf col Ecol.
  eapply setitem_mask_channel_well_shaped; eauto.
Qed.

(** X1. For an inclusion mask of the shape of the image, every mask an
    engine returns has the documented shape, that of the image for a hard
    segmentation and that of the image followed by 3 for a soft one, and
    holds as many values as this shape says. *)
Theorem masks_have_documented_shape img bm contrast (hard_seg : bool) :
  same_shape img bm -> wf img ->
  let s := if hard_seg then shape img else shape img ++ [3] in
  (forall t out, fcm_class_mask cmeans img bm hard_seg = (t, Ok out) ->
                 shape out = s /\ wf out) /\
  (forall t out,
      gmm_class_mask GaussianMixture_fit img bm contrast false hard_seg =
        (t, Ok (mask_of out)) ->
      shape out = s /\ wf out).
Proof.
  intros Hs Hw s. split; intros t out H.
  - destruct (fcm_Ok_inv img bm hard_seg t out Hs Hw H)
      as (cntr & mem & L & rows & tL & tR & _ & _ & _ & Hrows & ->).
    unfold s. destruct hard_seg; split; try reflexivity;
      [apply hard_mask_wf | now apply of_rows_wf].
  - unfold s. destruct hard_seg.
    + destruct (gmm_hard_Ok GaussianMixture_fit img bm contrast t out Hs Hw H)
        as (v & -> & _). split; [reflexivity | apply hard_mask_wf].
    + destruct (gmm_soft_Ok img bm contrast t out Hs Hw H) as (rows & Hrows & ->).
      split; [reflexivity | now apply of_rows_wf].
Qed.

(** X4. For one fitter, the hard segmentation of [fcm_class_mask] is
    the voxel-wise winner of its soft mask: every included voxel holds 1
    plus the first index at which the 3 class values the soft mask holds
    there are maximal (no class value exceeds the one at this index, and
    every class value before it is strictly smaller), and every excluded
    voxel holds 0. *)
Theorem fcm_hard_is_argmax_of_soft img bm t1 soft t2 hard :
  same_shape img bm -> wf img ->
  fcm_class_mask cmeans img bm false = (t1, Ok soft) ->
  fcm_class_mask cmeans img bm true = (t2, Ok hard) ->
  forall p, p < length (data img) ->
    if nth p (data (mask_data img bm)) false
    then exists a, a < 3 /\
           nth p (data hard) 0%Q = inject_Z (Z.of_nat (1 + a)) /\
           (forall i, i < 3 -> (class_value soft p i <= class_value soft p a)%Q) /\
           (forall i, i < a -> (class_value soft p i < class_value soft p a)%Q)
    else nth p (data hard) 0%Q = 0%Q.
Proof.
  intros Hs Hw H1 H2 p Hp.
  destruct (fcm_Ok_inv img bm false t1 soft Hs Hw H1)
    as (cntr & mem & L & rows & tL & tR & Ec & EL & ER & Hrows & ->).
  destruct (fcm_Ok_inv img bm true t2 hard Hs Hw H2)
    as (cntr' & mem' & L' & rows' & tL' & tR' & Ec' & EL' & ER' & _ & ->).
  rewrite Ec in Ec'. injection Ec' as <- <-.
  rewrite EL in EL'. injection EL' as _ <-.
  rewrite ER in ER'. injection ER' as _ <-.
  destruct Hrows as [Hl Hwd].
  pose proof (mask_data_length img bm Hs Hw) as Hm.
  set (m := data (mask_data img bm)) in *.
  assert (length m = size_of (shape img)) as Hn by (rewrite Hm; exact Hw).
  rewrite hard_mask_nth
    by (rewrite ?length_map, ?select_length; auto; lia).
  destruct (nth p m false) eqn:Hin; [| reflexivity].
  rewrite (nth_map_lt _ _ _ [])
    by (rewrite select_length by lia; now apply rank_lt).
  rewrite select_rank by (auto; lia).
  rewrite Forall_forall in Hwd.
  assert (forall i, i < 3 ->
            class_value (np.of_rows (shape img) rows) p i = nth i (nth p rows []) 0%Q) as Hcv
      by (intros i Hi; now apply of_rows_class_value).
  assert (In (nth p rows []) rows) as Hrow by (apply nth_In; lia).
  pose proof (Hwd _ Hrow) as Hlen.
  destruct (argmax_spec (nth p rows [])) as (Ha & Hmax & Hfirst).
  { intros E. rewrite E in Hlen. discriminate. }
  rewrite Hlen in Ha, Hmax.
  exists (np.argmax (nth p rows [])). split; [exact Ha |].
  split; [unfold winner; now rewrite Nat.add_comm |]. split.
  - intros i Hi. rewrite !Hcv by assumption. now apply Hmax.
  - intros i Hi. rewrite !Hcv by lia. now apply Hfirst.
Qed.
End ReturnedMasks.

(** ** Calls to the fitting routines *)

Lemma trace_bind_silent {A B} (P : list call -> Prop) (m : M A) (f : A -> M B) :
  silent m -> P [] -> (forall a, P (trace (f a))) -> P (trace (bind m f)).
Proof.
  unfold silent, trace, bind. destruct m as [t [a | e |]]; simpl; intros -> H0 Hf; auto.
  specialize (Hf a). destruct (f a). exact Hf.
Qed.

Lemma silent_getitem_mask {A} (a : ndarray A) (m : ndarray bool) :
  silent (np.getitem_mask a m).
Proof. unfold np.getitem_mask. now destruct (match_axes (shape m) (shape a)). Qed.

Lemma silent_len {A} (a : ndarray A) : silent (np.len a).
Proof. unfold np.len. now destruct (shape a). Qed.

Lemma silent_reshape_rows {A} (a : ndarray A) (n : nat) : silent (np.reshape_rows a n).
Proof.
  unfold np.reshape_rows. now destruct ((n =? 0) || negb (length (data a) mod n =? 0)).
Qed.

Section FitterCalls.

Variable cmeans :
  list (list Q) -> nat -> Q -> Q -> nat -> exn + (list Q * list (list Q)).
Variable GaussianMixture_fit : nat -> list Q -> exn + GaussianMixture.

Lemma fcm_rest_silent (img : ndarray Q) (md : ndarray bool) (sel : ndarray Q)
      (hard_seg : bool) (r : list Q * list (list Q)) :
  silent (let '(t1_cntr, t1_mem) := r in
          _ <- one_dim sel ;;
          t1_mem_list <- mapM (fun '(i, _) => getitem t1_mem i)
                              (sorted (enumerate t1_cntr) snd) ;;
          mask <- foldM (fun mask i =>
                           row <- getitem t1_mem_list i ;;
                           np.setitem_mask (fun r x => set_nth i x r) mask (data md) row)
                        (seq 0 3) (np.zeros3 (shape img)) ;;
          if hard_seg then
            tmp <- np.setitem_mask (fun _ x => x) (data (np.zeros (shape img))) (data md)
                     (map (fun r => inject_Z (Z.of_nat (np.argmax r + 1)))
                          (select (data md) mask)) ;;
            ret (mk_ndarray (shape img) tmp)
          else ret (np.of_rows (shape img) mask)).
Proof.
  destruct r as [cntr mem].
  apply silent_bind; [apply silent_one_dim |]. intros _.
  apply silent_bind; [apply silent_mapM; intros [i c]; apply silent_getitem |]. intros L.
  apply silent_bind.
  - apply silent_foldM. intros rows i.
    apply silent_bind; [apply silent_getitem | intros; apply silent_setitem_mask].
  - intros rows. destruct hard_seg; [| apply silent_ret].
    apply silent_bind; [apply silent_setitem_mask | intros; apply silent_ret].
Qed.

(** X3. Whatever the image, the brain mask and the flags, each engine
    calls its fitting routine at most once, [cmeans] always for 3 clusters
    with exponent 2, tolerance 0.005 and at most 50 iterations, and the
    mixture always with 3 components. *)
Theorem fitter_called_at_most_once img bm contrast return_wm_peak hard_seg :
  at_most_one fuzzy_call (trace (fcm_class_mask cmeans img bm hard_seg)) /\
  at_most_one mixture_call
    (trace (gmm_class_mask GaussianMixture_fit img bm contrast return_wm_peak hard_seg)).
Proof.
  split.
  - unfold fcm_class_mask.
    apply trace_bind_silent; [apply silent_getitem_mask | now left |]. intros sel.
    apply trace_bind_silent; [| now left |].
    { apply silent_bind; [apply silent_getitem_mask | intros; apply silent_len]. }
    intros n.
    apply trace_bind_silent; [apply silent_reshape_rows | now left |]. intros d.
    right. eexists. split; [| now exists d].
    unfold run_cmeans. apply trace_bind_call. intros r.
    apply (fcm_rest_silent img (mask_data img bm) sel hard_seg r).
  - unfold gmm_class_mask.
    apply trace_bind_silent; [apply silent_getitem_mask | now left |]. intros sel.
    right. eexists. split; [| now exists (data sel)].
    unfold run_fit. apply trace_bind_call. intros g.
    destruct return_wm_peak.
    + apply silent_bind; [| intros; apply silent_ret].
      destruct (String.eqb contrast "t1"); [apply silent_py_max |].
      apply silent_bind; [apply silent_py_max | intros; apply silent_ret].
    + apply silent_bind; [apply silent_one_dim |]. intros _.
      destruct hard_seg.
      * apply silent_bind; [apply silent_setitem_mask | intros; apply silent_ret].
      * apply silent_bind; [| intros; apply silent_ret].
        apply silent_foldM. intros rows [i c].
        apply silent_bind; [| intros; apply silent_setitem_mask_channel].
        apply silent_mapM. intros; apply silent_getitem.
Qed.

(** X2. An exception of the fitting routine reaches the caller as it
    is, after that one call: neither engine catches it or returns a
    mask. *)
Theorem fitter_exception_reaches_caller img bm contrast return_wm_peak hard_seg e :
  same_shape img bm -> wf img ->
  let X := masked_vector img bm in
  (X <> [] -> cmeans [X] 3 2%Q (5 # 1000)%Q 50 = inl e ->
   fcm_class_mask cmeans img bm hard_seg =
     ([cmeans_call [X] 3 2%Q (5 # 1000)%Q 50], Raise e)) /\
  (GaussianMixture_fit 3 X = inl e ->
   gmm_class_mask GaussianMixture_fit img bm contrast return_wm_peak hard_seg =
     ([GaussianMixture_fit_call 3 X], Raise e)).
Proof.
  intros Hs Hw X. split.
  - intros He Hc. now apply fcm_fit_raises.
  - intros Hf. now apply gmm_fit_raises.
Qed.
End FitterCalls.

(** ** Ties, and what the engines do not look at *)

Lemma insert_by_stable (x : nat * Q) (l : list (nat * Q)) :
  StronglySorted key_then_index l -> Forall (fun y => fst x < fst y) l ->
  StronglySorted key_then_index (insert_by snd x l).
Proof.
  induction 1 as [| y l Hs IH Hy]; intros Hx; simpl.
  - repeat constructor.
  - inversion Hx as [| ? ? Hxy Hxl]; subst.
    destruct (Qlt_bool (snd y) (snd x)) eqn:E.
    + apply Qlt_bool_iff in E. constructor; [now apply IH |].
      apply Forall_forall. intros z Hz.
      apply (Permutation_in _ (insert_by_perm snd x l)) in Hz.
      destruct Hz as [<- | Hz]; [now left |].
      rewrite Forall_forall in Hy. now apply Hy.
    + apply Qlt_bool_false_iff in E.
      constructor; [now constructor |].
      assert (key_then_index x y) as Kxy.
      { destruct (Qlt_le_dec (snd x) (snd y)) as [L | L]; [now left |].
        right. split; [lra | exact Hxy]. }
      constructor; [exact Kxy |].
      apply Forall_forall. intros z Hz.
      rewrite Forall_forall in Hy, Hxl. specialize (Hy z Hz). specialize (Hxl z Hz).
      unfold key_then_index in *.
      destruct (Qlt_le_dec (snd x) (snd z)) as [L | L]; [now left |].
      right. split; [| exact Hxl]. destruct Hy as [Hy | [Hy _]]; lra.
Qed.

Lemma sorted_stable (l : list (nat * Q)) :
  StronglySorted (fun x y => fst x < fst y) l ->
  StronglySorted key_then_index (sorted l snd).
Proof.
  induction 1 as [| x l Hs IH Hx]; simpl; [constructor |].
  apply insert_by_stable; [exact IH |].
  apply Forall_forall. intros y Hy.
  apply (Permutation_in _ (sorted_perm snd l)) in Hy.
  rewrite Forall_forall in Hx. now apply Hx.
Qed.

Lemma enumerate_increasing {A} (l : list A) :
  StronglySorted (fun x y : nat * A => fst x < fst y) (enumerate l).
Proof.
  unfold enumerate. generalize 0. induction l as [| a l IH]; intros n; simpl.
  - constructor.
  - constructor; [apply IH |].
    apply Forall_forall. intros [i y] Hy. apply in_combine_l in Hy.
    apply in_seq in Hy. simpl. lia.
Qed.

Lemma StronglySorted_map_in {A B} (R : A -> A -> Prop) (S : B -> B -> Prop)
      (f : A -> B) (l : list A) :
  (forall x y, In x l -> In y l -> R x y -> S (f x) (f y)) ->
  StronglySorted R l -> StronglySorted S (map f l).
Proof.
  intros H Hs. induction Hs as [| x l Hs IH Hx]; simpl; constructor.
  - apply IH. intros a b Ha Hb. apply H; now right.
  - rewrite Forall_map. rewrite Forall_forall in Hx |- *.
    intros y Hy. apply H; [now left | now right | now apply Hx].
Qed.

(** The class order of [fcm_class_mask] and [np.argsort]: ascending
    keys, equal keys in raw index order. *)
Lemma argsort_stable (w : list Q) :
  StronglySorted (center_then_index w) (np.argsort w).
Proof.
  unfold np.argsort.
  apply (StronglySorted_map_in key_then_index); [| apply sorted_stable, enumerate_increasing].
  intros [i x] [j y] Hx Hy K.
  apply (Permutation_in _ (sorted_perm snd _)) in Hx, Hy.
  destruct (enumerate_In _ _ _ 0%Q Hx) as [_ <-].
  destruct (enumerate_In _ _ _ 0%Q Hy) as [_ <-].
  exact K.
Qed.

Lemma select_ext {A} (m : list bool) (xs ys : list A) (d : A) :
  length m = length xs -> length m = length ys ->
  (forall p, nth p m false = true -> nth p xs d = nth p ys d) ->
  select m xs = select m ys.
Proof.
  revert xs ys. induction m as [| b m IH]; intros [| x xs] [| y ys] Hx Hy H; simpl;
    try discriminate; auto.
  injection Hx as Hx. injection Hy as Hy.
  assert (select m xs = select m ys) as E
      by (apply IH; auto; intros p Hp; exact (H (S p) Hp)).
  destruct b; [| exact E]. rewrite E. f_equal. exact (H 0 eq_refl).
Qed.

Section Inputs.

Variable cmeans :
  list (list Q) -> nat -> Q -> Q -> nat -> exn + (list Q * list (list Q)).
Variable GaussianMixture_fit : nat -> list Q -> exn + GaussianMixture.

(** X5. Clusters with equal centers keep their raw order in the classes
    of [fcm_class_mask]: the class order lists the raw cluster indices by
    ascending center and, among equal centers, by ascending index. *)
Theorem fcm_ties_keep_raw_order img bm hard_seg cntr mem :
  same_shape img bm -> wf img -> masked_vector img bm <> [] ->
  cmeans [masked_vector img bm] 3 2%Q (5 # 1000)%Q 50 = inr (cntr, mem) ->
  cmeans_contract (length (masked_vector img bm)) (cntr, mem) ->
  exists order,
    StronglySorted (center_then_index cntr) order /\
    Permutation order [0; 1; 2] /\
    outcome (fcm_class_mask cmeans img bm hard_seg) =
      Ok (fcm_output img bm hard_seg (map (fun i => nth i mem []) order)).
Proof.
  intros Hs Hw He Hc Hk. exists (np.argsort cntr).
  split; [apply argsort_stable |]. split.
  - destruct Hk as (H1 & _). simpl in H1. rewrite (argsort_perm cntr), H1. reflexivity.
  - now rewrite (fcm_fitted cmeans img bm hard_seg cntr mem).
Qed.

(** X6. With a brain mask of the shape of the image, the intensities at
    the voxels the mask excludes play no part: two images that agree on
    the included voxels give the same result, in every mode of either
    engine. *)
Theorem excluded_voxels_are_never_read img1 img2 b contrast return_wm_peak hard_seg :
  shape img1 = shape b -> shape img2 = shape b -> wf img1 -> wf img2 -> wf b ->
  (forall p, (0 < nth p (data b) 0)%Q -> nth p (data img1) 0%Q = nth p (data img2) 0%Q) ->
  fcm_class_mask cmeans img1 (Some b) hard_seg =
  fcm_class_mask cmeans img2 (Some b) hard_seg /\
  gmm_class_mask GaussianMixture_fit img1 (Some b) contrast return_wm_peak hard_seg =
  gmm_class_mask GaussianMixture_fit img2 (Some b) contrast return_wm_peak hard_seg.
Proof.
  intros S1 S2 W1 W2 Wb H.
  assert (same_shape img1 (Some b)) as Hs1 by (split; [now symmetry | exact Wb]).
  assert (same_shape img2 (Some b)) as Hs2 by (split; [now symmetry | exact Wb]).
  assert (select (data (np.gt0 b)) (data img1) = select (data (np.gt0 b)) (data img2)) as E.
  { apply (select_ext _ _ _ 0%Q).
    - exact (mask_data_length img1 (Some b) Hs1 W1).
    - exact (mask_data_length img2 (Some b) Hs2 W2).
    - intros p Hp. apply H. now apply gt0_nth. }
  unfold fcm_class_mask, gmm_class_mask. cbn [mask_data].
  rewrite !(getitem_mask_same _ (np.gt0 b))
    by (try reflexivity; try (simpl; congruence);
        try exact (mask_data_length img1 (Some b) Hs1 W1);
        try exact (mask_data_length img2 (Some b) Hs2 W2)).
  rewrite S1, S2, E. split; reflexivity.
Qed.

(** X7. A brain mask counts only through where it is positive: two
    masks of one shape that are positive at the same voxels give the same
    result, in every mode of either engine. *)
Theorem brain_mask_counts_through_its_sign img b1 b2 contrast return_wm_peak hard_seg :
  shape b1 = shape b2 -> wf b1 -> wf b2 ->
  (forall p, (0 < nth p (data b1) 0)%Q <-> (0 < nth p (data b2) 0)%Q) ->
  fcm_class_mask cmeans img (Some b1) hard_seg =
  fcm_class_mask cmeans img (Some b2) hard_seg /\
  gmm_class_mask GaussianMixture_fit img (Some b1) contrast return_wm_peak hard_seg =
  gmm_class_mask GaussianMixture_fit img (Some b2) contrast return_wm_peak hard_seg.
Proof.
  intros S W1 W2 H.
  assert (np.gt0 b1 = np.gt0 b2) as E.
  { unfold np.gt0. rewrite S. f_equal.
    apply (nth_ext _ _ false false).
    - rewrite !length_map. unfold wf in *. congruence.
    - intros p _. destruct (nth p (map (fun x => Qlt_bool 0 x) (data b2)) false) eqn:E2.
      + apply (gt0_nth b1). apply H. now apply (gt0_nth b2).
      + destruct (nth p (map (fun x => Qlt_bool 0 x) (data b1)) false) eqn:E1;
          [| reflexivity].
        apply (gt0_nth b1), H, (gt0_nth b2) in E1. simpl in E1. congruence. }
  unfold fcm_class_mask, gmm_class_mask. cbn [mask_data]. rewrite E. split; reflexivity.
Qed.
End Inputs.

(** ** More on the mixture engine *)

Section MixtureModes.

Variable GaussianMixture_fit : nat -> list Q -> exn + GaussianMixture.


End MixtureModes.

(** ** These properties on sample inputs *)


Lemma masks_have_documented_shape_witness :
  same_shape sample_img (Some sample_brain_mask) /\ wf sample_img /\
  (exists t out,
      fcm_class_mask sample_cmeans sample_img (Some sample_brain_mask) false =
        (t, Ok out) /\ shape out = [2; 2; 3] /\ wf out) /\
  (exists t out,
      gmm_class_mask (sample_fit sample_gmm) sample_img (Some sample_brain_mask)
                     "t1" false false = (t, Ok (mask_of out)) /\
      shape out = [2; 2; 3] /\ wf out).
Proof.
  split; [exact sample_same_shape |]. split; [reflexivity |].
  destruct (masks_have_documented_shape sample_cmeans (sample_fit sample_gmm) sample_img
              (Some sample_brain_mask) "t1" false sample_same_shape eq_refl) as (Hf & Hg).
  split.
  - eexists. eexists. split; [reflexivity |]. apply (Hf _ _ eq_refl).
  - eexists. eexists. split; [reflexivity |]. apply (Hg _ _ eq_refl).
Defined.

Lemma fitter_exception_reaches_caller_witness :
  same_shape two_voxels None /\ wf two_voxels /\
  masked_vector two_voxels None <> [] /\
  fcm_class_mask failing_cmeans two_voxels None true =
    ([cmeans_call [[10; 20]%Q] 3 2%Q (5 # 1000)%Q 50], Raise ValueError) /\
  gmm_class_mask (sample_fit sample_gmm) two_voxels None "t1" false true =
    ([GaussianMixture_fit_call 3 [10; 20]%Q], Raise ValueError).
Proof.
  split; [exact I |]. split; [reflexivity |]. split; [discriminate |].
  destruct (fitter_exception_reaches_caller failing_cmeans (sample_fit sample_gmm)
              two_voxels None "t1" false true ValueError I eq_refl) as (Hf & Hg).
  split; [apply Hf; [discriminate | reflexivity] | apply Hg; reflexivity].
Defined.

Lemma fcm_hard_is_argmax_of_soft_witness :
  same_shape two_voxels None /\ wf two_voxels /\
  exists t1 soft t2 hard,
    fcm_class_mask tied_cmeans_a two_voxels None false = (t1, Ok soft) /\
    fcm_class_mask tied_cmeans_a two_voxels None true = (t2, Ok hard) /\
    data soft = [1; 0; 0; 0; 1; 0]%Q /\ data hard = [1; 2]%Q /\
    exists a, a < 3 /\
      nth 1 (data hard) 0%Q = inject_Z (Z.of_nat (1 + a)) /\
      (forall i, i < 3 -> (class_value soft 1 i <= class_value soft 1 a)%Q) /\
      (forall i, i < a -> (class_value soft 1 i < class_value soft 1 a)%Q).
Proof.
  split; [exact I |]. split; [reflexivity |].
  do 4 eexists. split; [reflexivity |]. split; [reflexivity |].
  split; [reflexivity |]. split; [reflexivity |].
  exact (fcm_hard_is_argmax_of_soft tied_cmeans_a two_voxels None _ _ _ _ I eq_refl
           eq_refl eq_refl 1 ltac:(simpl; lia)).
Defined.

Lemma tied_cmeans_contract :
  cmeans_contract 2 ([1; 1; 3]%Q, [[1; 0]; [0; 1]; [0; 0]]%Q).
Proof.
  repeat split. intros row [<- | [<- | [<- | []]]]; reflexivity.
Defined.

Lemma fcm_ties_keep_raw_order_witness :
  same_shape two_voxels None /\ wf two_voxels /\ masked_vector two_voxels None <> [] /\
  cmeans_contract 2 ([1; 1; 3]%Q, [[1; 0]; [0; 1]; [0; 0]]%Q) /\
  exists order,
    StronglySorted (center_then_index [1; 1; 3]%Q) order /\
    Permutation order [0; 1; 2] /\
    outcome (fcm_class_mask tied_cmeans_a two_voxels None false) =
      Ok (fcm_output two_voxels None false
            (map (fun i => nth i [[1; 0]; [0; 1]; [0; 0]]%Q []) order)).
Proof.
  split; [exact I |]. split; [reflexivity |]. split; [discriminate |].
  split; [exact tied_cmeans_contract |].
  exact (fcm_ties_keep_raw_order tied_cmeans_a two_voxels None false _ _ I eq_refl
           ltac:(discriminate) eq_refl tied_cmeans_contract).
Defined.

Lemma variant_agrees_on_brain :
  forall p, (0 < nth p (data sample_brain_mask) 0)%Q ->
            nth p (data sample_img) 0%Q = nth p (data sample_img_variant) 0%Q.
Proof.
  intros [| [| [| [| p]]]] H; try reflexivity. discriminate H.
Defined.

Lemma excluded_voxels_are_never_read_witness :
  shape sample_img = shape sample_brain_mask /\
  shape sample_img_variant = shape sample_brain_mask /\
  wf sample_img /\ wf sample_img_variant /\ wf sample_brain_mask /\
  data sample_img <> data sample_img_variant /\
  fcm_class_mask sample_cmeans sample_img (Some sample_brain_mask) true =
  fcm_class_mask sample_cmeans sample_img_variant (Some sample_brain_mask) true /\
  gmm_class_mask (sample_fit sample_gmm) sample_img (Some sample_brain_mask)
                 "t1" false true =
  gmm_class_mask (sample_fit sample_gmm) sample_img_variant (Some sample_brain_mask)
                 "t1" false true.
Proof.
  repeat (split; [reflexivity |]). split; [discriminate |].
  exact (excluded_voxels_are_never_read sample_cmeans (sample_fit sample_gmm)
           sample_img sample_img_variant sample_brain_mask "t1" false true
           eq_refl eq_refl eq_refl eq_refl eq_refl variant_agrees_on_brain).
Defined.

Lemma scaled_mask_same_sign :
  forall p, (0 < nth p (data sample_brain_mask) 0)%Q <->
            (0 < nth p (data scaled_brain_mask) 0)%Q.
Proof.
  intros [| [| [| [| p]]]]; split; intros H; first [exact H | reflexivity].
Defined.

Lemma brain_mask_counts_through_its_sign_witness :
  shape sample_brain_mask = shape scaled_brain_mask /\
  wf sample_brain_mask /\ wf scaled_brain_mask /\
  data sample_brain_mask <> data scaled_brain_mask /\
  fcm_class_mask sample_cmeans sample_img (Some sample_brain_mask) false =
  fcm_class_mask sample_cmeans sample_img (Some scaled_brain_mask) false /\
  gmm_class_mask (sample_fit sample_gmm) sample_img (Some sample_brain_mask)
                 "t2" true false =
  gmm_class_mask (sample_fit sample_gmm) sample_img (Some scaled_brain_mask)
                 "t2" true false.
Proof.
  repeat (split; [reflexivity |]). split; [discriminate |].
  exact (brain_mask_counts_through_its_sign sample_cmeans (sample_fit sample_gmm)
           sample_img sample_brain_mask scaled_brain_mask "t2" true false
           eq_refl eq_refl eq_refl scaled_mask_same_sign).
Defined.

